(** * get-aws-service-endpoints: a shallow embedding and its properties

    The script [get-aws-service-endpoints.py] lists AWS regions and services
    through the SSM public parameter store and prints a nested mapping
    region -> service -> endpoint as JSON.

    Python values are embedded as follows.
    - [str] is [string]: the UTF-8 bytes of the text.  Comparing UTF-8 byte
      sequences lexicographically is comparing code points lexicographically,
      which is the order Python's [sorted] uses on [str].
    - a [list] is a [list]; the triple [[region, service, endpoint]] is a
      tuple of three strings.
    - a [dict] is an association list in insertion order (Python dicts
      keep insertion order and [json.dumps] follows it).
    - the process state (standard input, standard output, standard error and
      the log of calls sent to the parameter store) is a record [World],
      threaded through a state-and-exception monad [M].
    - the parameter store is an oracle [SSM]: the response to a call may
      depend on every call made before it. *)

From Stdlib Require Import List String Ascii Arith Lia Bool NArith.
From Stdlib Require Import Sorting.Sorted Sorting.Permutation.
From Stdlib Require DecimalString.
Import ListNotations.
Open Scope string_scope.

Set Implicit Arguments.

(** ** Python built-ins used by the script *)

Module Py.

(** The newline character, as [print] appends it. *)
Definition nl : string := String (ascii_of_nat 10) EmptyString.

(** [s.split(sep)] for a one-character separator: every occurrence of the
    separator splits, empty segments are kept, and the result always has at
    least one element ([''.split(',') == ['']]). *)
Fixpoint split (sep : ascii) (s : string) : list string :=
  match s with
  | EmptyString => [EmptyString]
  | String c rest =>
      if Ascii.eqb c sep then EmptyString :: split sep rest
      else match split sep rest with
           | seg :: segs => String c seg :: segs
           | [] => [String c EmptyString]
           end
  end.

(** [s.lower()] on ASCII letters.  Bytes outside A-Z are left alone; no
    code point other than 'Y' and 'y' lower-cases to 'y', which is the only
    comparison the script makes on a lower-cased string. *)
Definition lower_ascii (c : ascii) : ascii :=
  let n := nat_of_ascii c in
  if ((65 <=? n) && (n <=? 90))%nat then ascii_of_nat (n + 32) else c.

Fixpoint lower (s : string) : string :=
  match s with
  | EmptyString => EmptyString
  | String c rest => String (lower_ascii c) (lower rest)
  end.

(** [sorted(l)] on a list of strings.  Python's sort is stable and compares
    with [<]; it is embedded as a stable insertion sort. *)
Fixpoint insert (x : string) (l : list string) : list string :=
  match l with
  | [] => [x]
  | y :: l' => if String.leb x y then x :: l else y :: insert x l'
  end.

Fixpoint sorted (l : list string) : list string :=
  match l with
  | [] => []
  | x :: l' => insert x (sorted l')
  end.

(** [range(start, stop, step)] for a positive step: start, start + step, ...
    while below [stop].  The fuel [stop] is never exhausted when
    [step >= 1]. *)
Fixpoint range_from (fuel i stop step : nat) : list nat :=
  match fuel with
  | 0 => []
  | S fuel' => if (i <? stop)%nat then i :: range_from fuel' (i + step) stop step else []
  end.

Definition range (start stop step : nat) : list nat :=
  range_from stop start stop step.

(** The slice [l[i:j]] for [0 <= i <= j]; it is clipped at the end of the
    list. *)
Definition slice (A : Type) (l : list A) (i j : nat) : list A :=
  firstn (j - i) (skipn i l).

(** [l[-k]]: [None] stands for the [IndexError] Python raises when the list
    has fewer than [k] elements. *)
Definition index_from_end (A : Type) (l : list A) (k : nat) : option A :=
  if (List.length l <? k)%nat then None else nth_error l (List.length l - k).

(** [str(n)] for a natural number. *)
Definition str_of_nat (n : nat) : string :=
  DecimalString.NilEmpty.string_of_uint (Nat.to_uint n).

(** [sep.join(l)]. *)
Definition join (sep : string) (l : list string) : string :=
  String.concat sep l.

(** *** Dictionaries in insertion order *)

Section Dict.
Variable V : Type.

Fixpoint dict_get (k : string) (d : list (string * V)) : option V :=
  match d with
  | [] => None
  | (k', v) :: d' => if String.eqb k k' then Some v else dict_get k d'
  end.

(** [k in d] *)
Definition dict_mem (k : string) (d : list (string * V)) : bool :=
  match dict_get k d with Some _ => true | None => false end.

(** [d[k] = v]: an existing key keeps its position, a new key goes last. *)
Fixpoint dict_set (k : string) (v : V) (d : list (string * V)) : list (string * V) :=
  match d with
  | [] => [(k, v)]
  | (k', v') :: d' =>
      if String.eqb k k' then (k', v) :: d' else (k', v') :: dict_set k v d'
  end.

Definition keys (d : list (string * V)) : list string := map fst d.
End Dict.

(** *** [json.dumps(obj, indent = n)] on strings and objects *)

#[local] Unset Elimination Schemes.
Inductive json : Type :=
| JString (s : string)
| JObject (members : list (string * json)).
#[local] Set Elimination Schemes.

Definition hex_digit (n : N) : ascii :=
  if (n <? 10)%N then ascii_of_N (48 + n) else ascii_of_N (87 + n).

(** ['{0:04x}'.format(n)] for [n < 0x10000]. *)
Definition hex4 (n : N) : string :=
  String (hex_digit (N.land (N.shiftr n 12) 15))
  (String (hex_digit (N.land (N.shiftr n 8) 15))
  (String (hex_digit (N.land (N.shiftr n 4) 15))
  (String (hex_digit (N.land n 15)) EmptyString))).

Definition backslash : ascii := ascii_of_nat 92.
Definition dquote : ascii := ascii_of_nat 34.

Definition u_escape (n : N) : string :=
  String backslash (String "u" (hex4 n)).

(** The replacement [json.encoder] makes for one code point that is not a
    printable ASCII character other than the backslash and the quote. *)
Definition escape_code_point (n : N) : string :=
  if (n =? 92)%N then String backslash (String backslash EmptyString)
  else if (n =? 34)%N then String backslash (String dquote EmptyString)
  else if (n =? 8)%N then String backslash "b"
  else if (n =? 12)%N then String backslash "f"
  else if (n =? 10)%N then String backslash "n"
  else if (n =? 13)%N then String backslash "r"
  else if (n =? 9)%N then String backslash "t"
  else if (n <? 65536)%N then u_escape n
  else
    let m := (n - 65536)%N in
    u_escape (N.lor 55296 (N.land (N.shiftr m 10) 1023))
      ++ u_escape (N.lor 56320 (N.land m 1023)).

Definition printable (n : N) : bool :=
  (32 <=? n)%N && (n <=? 126)%N && negb (n =? 92)%N && negb (n =? 34)%N.

Definition cont (c : ascii) : N := N.land (N_of_ascii c) 63.

(** The body of [py_encode_basestring_ascii]: printable ASCII is copied,
    every other code point is escaped.  The code points are decoded from the
    UTF-8 bytes; a byte that starts no well-formed sequence is the lone
    surrogate Python holds for it. *)
Fixpoint escape (s : string) : string :=
  match s with
  | EmptyString => EmptyString
  | String c rest =>
      let n := N_of_ascii c in
      if (n <? 128)%N then
        (if printable n then String c (escape rest)
         else escape_code_point n ++ escape rest)
      else
        match rest with
        | String c2 rest2 =>
            if (192 <=? n)%N && (n <? 224)%N then
              escape_code_point (N.lor (N.shiftl (N.land n 31) 6) (cont c2))
                ++ escape rest2
            else
              match rest2 with
              | String c3 rest3 =>
                  if (224 <=? n)%N && (n <? 240)%N then
                    escape_code_point
                      (N.lor (N.shiftl (N.land n 15) 12)
                         (N.lor (N.shiftl (cont c2) 6) (cont c3)))
                      ++ escape rest3
                  else
                    match rest3 with
                    | String c4 rest4 =>
                        if (240 <=? n)%N then
                          escape_code_point
                            (N.lor (N.shiftl (N.land n 7) 18)
                               (N.lor (N.shiftl (cont c2) 12)
                                  (N.lor (N.shiftl (cont c3) 6) (cont c4))))
                            ++ escape rest4
                        else u_escape (56320 + n) ++ escape rest
                    | EmptyString => u_escape (56320 + n) ++ escape rest
                    end
              | EmptyString => u_escape (56320 + n) ++ escape rest
              end
        | EmptyString => u_escape (56320 + n)
        end
  end.

Definition encode_basestring_ascii (s : string) : string :=
  String dquote (escape s ++ String dquote EmptyString).

Fixpoint spaces (n : nat) : string :=
  match n with
  | 0 => EmptyString
  | S n' => String " " (spaces n')
  end.

(** [_iterencode] of [json.encoder] with an indent: an empty object is
    [{}]; otherwise every member starts on a line of its own, indented one
    level deeper, members are separated by a comma, key and value by a colon
    and a space, and the closing brace is on a line of its own at the
    object's level. *)
Fixpoint iterencode (indent level : nat) (o : json) : string :=
  match o with
  | JString s => encode_basestring_ascii s
  | JObject [] => "{}"
  | JObject members =>
      let newline_indent := nl ++ spaces (indent * S level) in
      "{" ++ newline_indent
        ++ join ("," ++ newline_indent)
             (map (fun kv => encode_basestring_ascii (fst kv) ++ ": "
                               ++ iterencode indent (S level) (snd kv))
                  members)
        ++ nl ++ spaces (indent * level) ++ "}"
  end.

Definition dumps (o : json) (indent : nat) : string := iterencode indent 0 o.

End Py.

(** ** The process state and the parameter store *)

(** The exceptions the script meets.  [NoCredentialsError] and [ClientError]
    are botocore's; [ClientError] carries [e.response['Error']['Message']].
    [SystemExit] is what [exit(code)] raises.  [IndexError] and [EOFError]
    are the built-in ones, and [OtherError] is any exception class the
    script has no handler for (a connection error, a missing region
    configuration, ...). *)
Inductive exn : Type :=
| NoCredentialsError (msg : string)
| ClientError (Message : string)
| KeyboardInterrupt
| SystemExit (code : nat)
| EOFError
| IndexError
| OtherError (name : string).

Inductive outcome (A : Type) : Type :=
| Ok (a : A)
| Raise (e : exn).
Arguments Ok {A} a.
Arguments Raise {A} e.

(** One entry of a response's ['Parameters'] list. *)
Record SsmParameter : Type := mkSsmParameter {
  Name : string;
  Value : string
}.

(** The response of [get_parameters]: its ['Parameters'], the parameters
    that exist, and its ['InvalidParameters'], the names that do not. *)
Record BatchResponse : Type := mkBatchResponse {
  ResponseParameters : list SsmParameter;
  InvalidParameters : list string
}.

(** A page of a [get_parameters_by_path] listing: its ['Parameters']. *)
Definition Page : Type := list SsmParameter.

(** A request sent to the parameter store.  The paginator sends one
    [GetParametersByPath] per page. *)
Inductive ApiCall : Type :=
| GetParametersByPath (Path : string)
| GetParameters (Names : list string).

(** The parameter store and the SDK around it.  Every response may depend
    on the calls made so far.  A listing answers with the pages the
    paginator is going to walk through, each of which may fail. *)
Record SSM : Type := mkSSM {
  new_client : string -> option exn;
  get_parameters_by_path : list ApiCall -> string -> list (outcome Page);
  get_parameters : list ApiCall -> list string -> outcome BatchResponse
}.

(** What [input()] meets on standard input: a line (without its newline) or
    an interrupt from the keyboard. *)
Inductive stdin_event : Type :=
| Line (s : string)
| Interrupt.

Record World : Type := mkWorld {
  stdin : list stdin_event;
  stdout : list string;
  stderr : list string;
  calls : list ApiCall
}.

(** The command-line options: [None] when the flag is not given. *)
Record Namespace : Type := mkNamespace {
  region_overrides : option string;
  service_overrides : option string
}.

(** ** The monad of the script: state and exceptions *)

Definition M (A : Type) : Type := World -> outcome A * World.

Definition ret (A : Type) (a : A) : M A := fun w => (Ok a, w).

Definition bind (A B : Type) (m : M A) (k : A -> M B) : M B :=
  fun w =>
    match m w with
    | (Ok a, w') => k a w'
    | (Raise e, w') => (Raise e, w')
    end.

Definition raise (A : Type) (e : exn) : M A := fun w => (Raise e, w).
Arguments raise {A} e.

Declare Scope py_scope.
Delimit Scope py_scope with py.
Notation "x <- m ;; k" := (bind m (fun x => k))
  (at level 61, m at next level, right associativity) : py_scope.
Notation "m ;;; k" := (bind m (fun _ => k))
  (at level 61, right associativity) : py_scope.
Open Scope py_scope.

Inductive stream : Type := Stdout | Stderr.

(** [print(msg, end = end_, file = f)]: one write of [msg] followed by
    [end_]. *)
Definition print (f : stream) (msg end_ : string) : M unit :=
  fun w =>
    match f with
    | Stdout => (Ok tt, mkWorld (stdin w) (stdout w ++ [msg ++ end_]) (stderr w) (calls w))
    | Stderr => (Ok tt, mkWorld (stdin w) (stdout w) (stderr w ++ [msg ++ end_]) (calls w))
    end.

(** [input()] *)
Definition input : M string :=
  fun w =>
    match stdin w with
    | [] => (Raise EOFError, w)
    | Line s :: rest => (Ok s, mkWorld rest (stdout w) (stderr w) (calls w))
    | Interrupt :: rest => (Raise KeyboardInterrupt, mkWorld rest (stdout w) (stderr w) (calls w))
    end.

Definition log_call (c : ApiCall) : M unit :=
  fun w => (Ok tt, mkWorld (stdin w) (stdout w) (stderr w) (calls w ++ [c])).

(** Python's truth value of an option that is [None] or a string. *)
Definition truthy (o : option string) : bool :=
  match o with
  | Some s => negb (String.eqb s EmptyString)
  | None => false
  end.

(** ** The script *)

(** The paths the script lists. *)
Definition regions_path : string :=
  "/aws/service/global-infrastructure/regions".

Definition services_path (region : string) : string :=
  "/aws/service/global-infrastructure/regions/" ++ region ++ "/services".

Section Script.

Variable ssm : SSM.

(** The module-level [arguments]. *)
Variable arguments : Namespace.

(** [quit_error]: the message on standard error, then [exit(1)]. *)
Definition quit_error (message : string) : M unit :=
  print Stderr message Py.nl ;;; raise (SystemExit 1).

Definition confirm_unfiltered_execution : M unit :=
  print Stdout
    "This script will retrieve all AWS service endpoints for all services in all regions."
    Py.nl ;;;
  print Stdout
    "This will make a large number of API calls and may take a long time."
    Py.nl ;;;
  print Stderr "Are you sure you want to continue? (y/n) " "" ;;;
  answer <- input ;;
  if negb (String.eqb (Py.lower answer) "y")
  then quit_error "User aborted program"
  else ret tt.

(** The client is the name of the service it talks to. *)
Definition create_client (service_name : string) : M string :=
  match new_client ssm service_name with
  | Some e => raise e
  | None => ret service_name
  end.

(** Walking through the pages of a listing: one call per page, and the
    first page that fails ends the walk. *)
Fixpoint iterate (path : string) (pages : list (outcome Page)) : M (list Page) :=
  match pages with
  | [] => ret []
  | p :: rest =>
      log_call (GetParametersByPath path) ;;;
      match p with
      | Raise e => raise e
      | Ok page => pages' <- iterate path rest ;; ret (page :: pages')
      end
  end.

(** [paginator.paginate(Path = path)], consumed to the end. *)
Definition paginate (ssm_client : string) (path : string) : M (list Page) :=
  fun w => iterate path (get_parameters_by_path ssm (calls w) path) w.

Definition get_regions (ssm_client : string) : M (list string) :=
  let region_overrides :=
    if truthy (region_overrides arguments)
    then option_map (Py.split ",") (region_overrides arguments)
    else None in
  regions <-
    match region_overrides with
    | Some ((_ :: _) as overrides) => ret overrides
    | _ =>
        print Stderr "Retrieving all AWS regions... " "" ;;;
        pages <- paginate ssm_client regions_path ;;
        let regions :=
          flat_map (fun page =>
            flat_map (fun region =>
              if negb (String.eqb (Value region) "global")
              then [Value region] else []) page) pages in
        print Stderr ("found " ++ Py.str_of_nat (List.length regions) ++ " regions.") Py.nl ;;;
        ret regions
    end ;;
  ret (Py.sorted regions).

Definition get_region_services (ssm_client : string) (region : string) : M (list string) :=
  let service_overrides :=
    if truthy (service_overrides arguments)
    then option_map (Py.split ",") (service_overrides arguments)
    else None in
  region_services <-
    match service_overrides with
    | Some ((_ :: _) as overrides) => ret overrides
    | _ =>
        print Stderr ("Retrieving all services in " ++ region ++ "... ") "" ;;;
        pages <- paginate ssm_client (services_path region) ;;
        let region_services :=
          flat_map (fun page => flat_map (fun service => [Value service]) page) pages in
        print Stderr
          ("found " ++ Py.str_of_nat (List.length region_services) ++ " services.") Py.nl ;;;
        ret region_services
    end ;;
  ret (Py.sorted region_services).

Definition triple : Type := string * string * string.

Definition parameter_name (region service : string) : string :=
  "/aws/service/global-infrastructure/regions/" ++ region
    ++ "/services/" ++ service ++ "/endpoint".

(** [ssm_client.get_parameters(Names = names)] *)
Definition get_parameters_call (ssm_client : string) (names : list string) : M BatchResponse :=
  fun w =>
    let response := get_parameters ssm (calls w) names in
    match log_call (GetParameters names) w with
    | (_, w') =>
        match response with
        | Ok r => (Ok r, w')
        | Raise e => (Raise e, w')
        end
    end.

(** The inner loop over [batch_response['Parameters']]. *)
Fixpoint append_endpoints (region : string) (parameters : list SsmParameter)
    (service_endpoints : list triple) : M (list triple) :=
  match parameters with
  | [] => ret service_endpoints
  | parameter :: rest =>
      match Py.index_from_end (Py.split "/" (Name parameter)) 2 with
      | None => raise IndexError
      | Some service =>
          append_endpoints region rest
            (service_endpoints ++ [(region, service, Value parameter)])
      end
  end.

(** The loop over [range(0, len(parameter_names), 10)]. *)
Fixpoint fetch_batches (ssm_client region : string) (parameter_names : list string)
    (indices : list nat) (service_endpoints : list triple) : M (list triple) :=
  match indices with
  | [] => ret service_endpoints
  | i :: rest =>
      batch_response <-
        get_parameters_call ssm_client (Py.slice parameter_names i (i + 10)) ;;
      print Stderr "." "" ;;;
      service_endpoints' <-
        append_endpoints region (ResponseParameters batch_response) service_endpoints ;;
      fetch_batches ssm_client region parameter_names rest service_endpoints'
  end.

Definition get_service_endpoints (ssm_client region : string) (services : list string)
    : M (list triple) :=
  let parameter_names := map (parameter_name region) services in
  fetch_batches ssm_client region parameter_names
    (Py.range 0 (List.length parameter_names) 10) [].

(** The loop over the regions in [generate_output_json]. *)
Fixpoint collect_endpoints (ssm_client : string) (regions : list string)
    (region_service_endpoints : list triple) : M (list triple) :=
  match regions with
  | [] => ret region_service_endpoints
  | region :: rest =>
      region_services <- get_region_services ssm_client region ;;
      (if negb (truthy (service_overrides arguments))
       then print Stderr ("Retrieving endpoints for " ++ region ++ "...") ""
       else print Stderr
              ("Retrieving endpoint(s) for " ++ Py.join ", " region_services
                 ++ " in " ++ region ++ "...") "") ;;;
      endpoints <- get_service_endpoints ssm_client region region_services ;;
      print Stderr " done." Py.nl ;;;
      collect_endpoints ssm_client rest (region_service_endpoints ++ endpoints)
  end.

(** One turn of the loop that fills [json_data]. *)
Definition add_endpoint (json_data : list (string * list (string * string))) (t : triple)
    : list (string * list (string * string)) :=
  let '(region, service, endpoint) := t in
  let json_data' :=
    if negb (Py.dict_mem region json_data)
    then Py.dict_set region [] json_data
    else json_data in
  match Py.dict_get region json_data' with
  | Some services => Py.dict_set region (Py.dict_set service endpoint services) json_data'
  | None => json_data'
  end.

Definition build_json_data (region_service_endpoints : list triple)
    : list (string * list (string * string)) :=
  fold_left add_endpoint region_service_endpoints [].

(** [json_data] as a JSON value. *)
Definition to_json (json_data : list (string * list (string * string))) : Py.json :=
  Py.JObject
    (map (fun rs =>
            (fst rs, Py.JObject (map (fun se => (fst se, Py.JString (snd se))) (snd rs))))
         json_data).

Definition generate_output_json : M string :=
  ssm_client <- create_client "ssm" ;;
  regions <- get_regions ssm_client ;;
  region_service_endpoints <- collect_endpoints ssm_client regions [] ;;
  ret (Py.dumps (to_json (build_json_data region_service_endpoints)) 4).

Definition main : M unit :=
  (if negb (truthy (region_overrides arguments))
      && negb (truthy (service_overrides arguments))
   then confirm_unfiltered_execution
   else ret tt) ;;;
  output_json <- generate_output_json ;;
  print Stdout output_json Py.nl.

(** The [try] statement under [if __name__ == '__main__'], with
    [arguments] already parsed. *)
Definition script : M unit :=
  fun w =>
    match main w with
    | (Raise (NoCredentialsError e), w') => quit_error e w'
    | (Raise (ClientError Message), w') => quit_error Message w'
    | (Raise KeyboardInterrupt, w') => quit_error "User interrupted program" w'
    | r => r
    end.

End Script.

(** How the interpreter ends the process: [SystemExit] gives its code, a
    normal end gives 0, and any other exception is reported with a traceback
    by the interpreter itself. *)
Inductive status : Type :=
| Exited (code : nat)
| Traceback (e : exn).

Definition exit_status (r : outcome unit) : status :=
  match r with
  | Ok _ => Exited 0
  | Raise (SystemExit code) => Exited code
  | Raise e => Traceback e
  end.

Definition run (ssm : SSM) (arguments : Namespace) (w : World) : status * World :=
  let (r, w') := script ssm arguments w in (exit_status r, w').

(** ** Vocabulary of the statements *)

(** The order of [sorted] on strings. *)
Definition str_le (a b : string) : Prop := String.leb a b = true.
Definition str_lt (a b : string) : Prop := String.ltb a b = true.

(** [occurs c s]: the character [c] occurs in [s]. *)
Fixpoint occurs (c : ascii) (s : string) : bool :=
  match s with
  | EmptyString => false
  | String c' s' => Ascii.eqb c' c || occurs c s'
  end.

(** [ceil(n / d)] on natural numbers. *)
Definition ceil_div (n d : nat) : nat := (n + d - 1) / d.

(** The slices [parameter_names[i:i + 10]] for the indices [i]. *)
Definition slices (parameter_names : list string) (indices : list nat)
    : list (list string) :=
  map (fun i => Py.slice parameter_names i (i + 10)) indices.

(** The [Names] of the successive [get_parameters] calls of
    [get_service_endpoints]: the slices [parameter_names[i:i + 10]] for [i]
    in [range(0, len(parameter_names), 10)]. *)
Definition batches (parameter_names : list string) : list (list string) :=
  slices parameter_names (Py.range 0 (List.length parameter_names) 10).

(** What the parameter store answers to successive [get_parameters] calls,
    the first one made after the calls of [history]. *)
Fixpoint replay (ssm : SSM) (history : list ApiCall) (requests : list (list string))
    : list (outcome BatchResponse) :=
  match requests with
  | [] => []
  | names :: rest =>
      get_parameters ssm history names
        :: replay ssm (history ++ [GetParameters names]) rest
  end.

(** The triple the script makes of one returned parameter; [None] stands
    for the [IndexError] of a name with fewer than two segments. *)
Definition endpoint_of (region : string) (parameter : SsmParameter) : option triple :=
  match Py.index_from_end (Py.split "/" (Name parameter)) 2 with
  | Some service => Some (region, service, Value parameter)
  | None => None
  end.

Fixpoint endpoints_of (region : string) (parameters : list SsmParameter)
    : option (list triple) :=
  match parameters with
  | [] => Some []
  | parameter :: rest =>
      match endpoint_of region parameter, endpoints_of region rest with
      | Some t, Some ts => Some (t :: ts)
      | _, _ => None
      end
  end.

Definition region_of (t : triple) : string := fst (fst t).
Definition service_of (t : triple) : string := snd (fst t).
Definition endpoint_value (t : triple) : string := snd t.

(** The order in which a dict comes to hold the keys assigned to it one
    after the other: a key takes its place when it is first assigned. *)
Definition add_key (ks : list string) (k : string) : list string :=
  if existsb (String.eqb k) ks then ks else ks ++ [k].

Definition insertion_order (l : list string) : list string :=
  fold_left add_key l [].

(** The triples of one region, in the order they were appended. *)
Definition triples_of_region (region : string) (ts : list triple) : list triple :=
  filter (fun t => String.eqb (region_of t) region) ts.

(** [returned ssm region t]: some [get_parameters] call for services of
    [region] was answered with a parameter of which [t] is the triple. *)
Definition returned (ssm : SSM) (region : string) (t : triple) : Prop :=
  exists (history : list ApiCall) (services : list string) (names : list string)
         (response : BatchResponse) (parameter : SsmParameter),
    In names (batches (map (parameter_name region) services))
    /\ get_parameters ssm history names = Ok response
    /\ In parameter (ResponseParameters response)
    /\ endpoint_of region parameter = Some t.

(** A computation that leaves standard input and standard output alone. *)
Definition quiet (A : Type) (m : M A) : Prop :=
  forall (w w' : World) (r : outcome A),
    m w = (r, w') -> stdout w' = stdout w /\ stdin w' = stdin w.

(** The inner dict of one region: its triples assigned in order. *)
Definition assign (services : list (string * string)) (t : triple) : list (string * string) :=
  Py.dict_set (service_of t) (endpoint_value t) services.

Definition region_dict (region : string) (ts : list triple) : list (string * string) :=
  fold_left assign (triples_of_region region ts) [].

(** The layout of the document, in the words of the output format: an
    object whose members are the regions, four spaces in, each with an object
    whose members are its services, eight spaces in; members are separated
    by a comma at the end of the line, and every closing brace is on a line
    of its own. *)
Definition service_line (se : string * string) : string :=
  Py.spaces 8 ++ Py.encode_basestring_ascii (fst se) ++ ": "
    ++ Py.encode_basestring_ascii (snd se).

Definition region_block (rs : string * list (string * string)) : string :=
  Py.spaces 4 ++ Py.encode_basestring_ascii (fst rs) ++ ": "
    ++ match snd rs with
       | [] => "{}"
       | _ :: _ =>
           "{" ++ Py.nl ++ Py.join ("," ++ Py.nl) (map service_line (snd rs))
             ++ Py.nl ++ Py.spaces 4 ++ "}"
       end.

Definition two_level_layout (json_data : list (string * list (string * string))) : string :=
  match json_data with
  | [] => "{}"
  | _ :: _ =>
      "{" ++ Py.nl ++ Py.join ("," ++ Py.nl) (map region_block json_data)
        ++ Py.nl ++ "}"
  end.

(** The condition of the confirmation gate in [main]. *)
Definition unfiltered (arguments : Namespace) : bool :=
  negb (truthy (region_overrides arguments))
  && negb (truthy (service_overrides arguments)).

(** What [confirm_unfiltered_execution] writes: two lines on standard
    output, then the question on standard error. *)
Definition banner : list string :=
  ["This script will retrieve all AWS service endpoints for all services in all regions."
     ++ Py.nl;
   "This will make a large number of API calls and may take a long time." ++ Py.nl].

Definition prompt : string := "Are you sure you want to continue? (y/n) ".

(** What [main] does after the gate. *)
Definition pipeline (ssm : SSM) (arguments : Namespace) : M unit :=
  output_json <- generate_output_json ssm arguments ;;
  print Stdout output_json Py.nl.

(** An override that is the empty string, taken as no override. *)
Definition absent_if_empty (o : option string) : option string :=
  match o with
  | Some s => if String.eqb s EmptyString then None else Some s
  | None => None
  end.

Definition normalize (arguments : Namespace) : Namespace :=
  mkNamespace (absent_if_empty (region_overrides arguments))
              (absent_if_empty (service_overrides arguments)).

(** The messages of the three handled failures. *)
Definition handled (e : exn) : option string :=
  match e with
  | NoCredentialsError msg => Some msg
  | ClientError Message => Some Message
  | KeyboardInterrupt => Some "User interrupted program"
  | _ => None
  end.

(** A store that answers a batch with parameters of the names it was
    asked for, as the parameter store does. *)
Definition answers_requested (ssm : SSM) : Prop :=
  forall (history : list ApiCall) (names : list string) (response : BatchResponse),
    get_parameters ssm history names = Ok response ->
    Forall (fun parameter => In (Name parameter) names) (ResponseParameters response).

(** What [generate_output_json] writes on standard error for one region
    when the services are overridden: the line that names the services, one
    marker per batch, and the end of the line. *)
Definition overridden_progress (services : list string) (region : string) : list string :=
  ("Retrieving endpoint(s) for " ++ Py.join ", " services ++ " in " ++ region ++ "...")
    :: repeat "." (ceil_div (List.length services) 10) ++ [" done." ++ Py.nl].

(** The calls of one region for a list of services. *)
Definition region_calls (services : list string) (region : string) : list ApiCall :=
  map GetParameters (batches (map (parameter_name region) services)).

(** One turn of the loop over the regions, as the store saw it: the
    region, the services resolved for it, and the responses to its batches. *)
Definition step : Type := (string * list string * list BatchResponse)%type.

Definition step_region (s : step) : string := fst (fst s).
Definition step_services (s : step) : list string := snd (fst s).
Definition step_responses (s : step) : list BatchResponse := snd s.

(** The line [generate_output_json] writes before it fetches the endpoints
    of a region. *)
Definition region_header (arguments : Namespace) (region : string)
    (services : list string) : string :=
  if negb (truthy (service_overrides arguments))
  then "Retrieving endpoints for " ++ region ++ "..."
  else "Retrieving endpoint(s) for " ++ Py.join ", " services ++ " in " ++ region ++ "...".

(** The world after the endpoints of a region were fetched, from the world
    in which its services were resolved. *)
Definition after_region (arguments : Namespace) (region : string)
    (services : list string) (w : World) : World :=
  mkWorld (stdin w) (stdout w)
    (stderr w ++ region_header arguments region services
                   :: repeat "." (ceil_div (List.length services) 10)
                   ++ [" done." ++ Py.nl])
    (calls w ++ region_calls services region).

(** [region_steps ssm arguments w steps w']: from the world [w], region
    after region, the services of each step are what [get_region_services]
    resolves for its region, the responses of the step are what the store
    answers to the batches of these services, every one of them an answer,
    and [w'] is the world after the last region. *)
Fixpoint region_steps (ssm : SSM) (arguments : Namespace) (w : World)
    (steps : list step) (w' : World) : Prop :=
  match steps with
  | [] => w' = w
  | s :: rest =>
      exists w1 : World,
        get_region_services ssm arguments "ssm" (step_region s) w
        = (Ok (step_services s), w1)
        /\ replay ssm (calls w1)
             (batches (map (parameter_name (step_region s)) (step_services s)))
           = map Ok (step_responses s)
        /\ region_steps ssm arguments
             (after_region arguments (step_region s) (step_services s) w1) rest w'
  end.

(** The parameters the store returned along the steps, each with the region
    it was returned for, in the order of the regions, of the batches and of
    the parameters in each response. *)
Definition returned_parameters (steps : list step) : list (string * SsmParameter) :=
  flat_map (fun s => map (pair (step_region s))
                         (flat_map ResponseParameters (step_responses s)))
           steps.

(** [triple_of (region, parameter) t]: [t] is the region, the second-to-last
    segment of the parameter's name and the parameter's value. *)
Definition triple_of (rp : string * SsmParameter) (t : triple) : Prop :=
  exists before service last,
    Py.split "/" (Name (snd rp)) = (before ++ [service; last])%list
    /\ t = (fst rp, service, Value (snd rp)).

(** ** Concrete stores, options and worlds *)

Module Examples.

Definition empty_world : World := mkWorld [] [] [] [].

(** The parameter a store holds for a name. *)
Definition echo (name : string) : SsmParameter :=
  mkSsmParameter name ("endpoint of " ++ name).

(** A store with two regions and the sentinel, two services in each
    region, and an endpoint for every name asked for, answered in the order
    of the request. *)
Definition echo_store : SSM :=
  mkSSM (fun _ => None)
    (fun _ path =>
       if String.eqb path regions_path
       then [Ok [mkSsmParameter (regions_path ++ "/us-east-1") "us-east-1";
                 mkSsmParameter (regions_path ++ "/global") "global"];
             Ok [mkSsmParameter (regions_path ++ "/eu-west-1") "eu-west-1"]]
       else [Ok [mkSsmParameter (path ++ "/s3") "s3";
                 mkSsmParameter (path ++ "/ec2") "ec2"]])
    (fun _ names => Ok (mkBatchResponse (map echo names) [])).

(** The same store, answering a batch in the reverse order of the request. *)
Definition reversing_store : SSM :=
  mkSSM (fun _ => None)
    (get_parameters_by_path echo_store)
    (fun _ names => Ok (mkBatchResponse (List.rev (map echo names)) [])).

(** A store that lists a service with the value of the sentinel. *)
Definition global_service_store : SSM :=
  mkSSM (fun _ => None)
    (fun _ path =>
       [Ok [mkSsmParameter (path ++ "/s3") "s3";
            mkSsmParameter (path ++ "/global") "global"]])
    (get_parameters echo_store).

(** A store that rejects every batch. *)
Definition throttling_store : SSM :=
  mkSSM (fun _ => None)
    (get_parameters_by_path echo_store)
    (fun _ _ => Raise (ClientError "Rate exceeded")).

(** A store without regions. *)
Definition empty_store : SSM :=
  mkSSM (fun _ => None) (fun _ _ => [Ok []]) (get_parameters echo_store).

Definition no_overrides : Namespace := mkNamespace None None.

Definition one_region_two_services : Namespace :=
  mkNamespace (Some "us-east-1") (Some "s3,ec2").

Definition empty_regions_override : Namespace := mkNamespace (Some "") None.

Definition eleven_services : list string :=
  ["a"; "b"; "c"; "d"; "e"; "f"; "g"; "h"; "i"; "j"; "k"].

Definition duplicated_overrides : Namespace :=
  mkNamespace (Some "us-east-1,us-east-1") (Some "s3,s3").

(** The result map of [echo_store] for one region and two services. *)
Definition two_services_data : list (string * list (string * string)) :=
  [("us-east-1",
    [("ec2", "endpoint of " ++ parameter_name "us-east-1" "ec2");
     ("s3", "endpoint of " ++ parameter_name "us-east-1" "s3")])].

(** The result map of [reversing_store] for the same request. *)
Definition reversed_data : list (string * list (string * string)) :=
  [("us-east-1",
    [("s3", "endpoint of " ++ parameter_name "us-east-1" "s3");
     ("ec2", "endpoint of " ++ parameter_name "us-east-1" "ec2")])].

(** The result map for a region and a service both given twice. *)
Definition duplicated_data : list (string * list (string * string)) :=
  [("us-east-1", [("s3", "endpoint of " ++ parameter_name "us-east-1" "s3")])].

(** A store whose listing fails on its second page. *)
Definition flaky_listing_store : SSM :=
  mkSSM (fun _ => None)
    (fun _ path =>
       [Ok [mkSsmParameter (path ++ "/a") "a"];
        Raise (ClientError "Rate exceeded");
        Ok [mkSsmParameter (path ++ "/b") "b"]])
    (get_parameters echo_store).

(** [echo_store] with the pages of its region listing in another order. *)
Definition reordered_store : SSM :=
  mkSSM (fun _ => None)
    (fun _ path =>
       if String.eqb path regions_path
       then [Ok [mkSsmParameter (regions_path ++ "/eu-west-1") "eu-west-1";
                 mkSsmParameter (regions_path ++ "/global") "global";
                 mkSsmParameter (regions_path ++ "/us-east-1") "us-east-1"]]
       else [Ok [mkSsmParameter (path ++ "/ec2") "ec2"];
             Ok [mkSsmParameter (path ++ "/s3") "s3"]])
    (get_parameters echo_store).

(** A store for which no client can be made. *)
Definition no_client_store : SSM :=
  mkSSM (fun _ => Some (OtherError "NoRegionError"))
    (get_parameters_by_path echo_store) (get_parameters echo_store).


(** A user who answers the gate. *)
Definition answering (answer : string) : World :=
  mkWorld [Line answer] [] [] [].

End Examples.


(** ** Facts about the built-ins *)

Module PyFacts.

(** *** The built-ins on small inputs *)

Example split_keeps_empty_segments :
  Py.split "," "us-east-1,,eu-west-1," = ["us-east-1"; ""; "eu-west-1"; ""]
  /\ Py.split "," "" = [""].
Proof. split; reflexivity. Qed.

Example sorted_is_by_code_point :
  Py.sorted ["b"; "a"; "B"; ""; "ab"; "a"] = [""; "B"; "a"; "a"; "ab"; "b"].
Proof. reflexivity. Qed.

Example range_by_tens :
  Py.range 0 25 10 = [0; 10; 20] /\ Py.range 0 20 10 = [0; 10] /\ Py.range 0 0 10 = [].
Proof. repeat split; reflexivity. Qed.

Example slice_is_clipped : Py.slice [1; 2; 3; 4; 5] 3 13 = [4; 5].
Proof. reflexivity. Qed.

Example second_to_last_segment :
  Py.index_from_end
    (Py.split "/" "/aws/service/global-infrastructure/regions/r/services/s3/endpoint") 2
  = Some "s3"
  /\ Py.index_from_end (Py.split "/" "endpoint") 2 = None.
Proof. split; reflexivity. Qed.

Example lower_of_yes : Py.lower "Y" = "y" /\ Py.lower "Yes" = "yes".
Proof. split; reflexivity. Qed.

Example escape_outside_ascii :
  Py.escape (String (ascii_of_nat 195) (String (ascii_of_nat 169) "/s3"))
  = String Py.backslash "u00e9/s3"
  /\ Py.escape (String (ascii_of_nat 9) "") = String Py.backslash "t".
Proof. split; reflexivity. Qed.

Example dumps_of_empty_object : Py.dumps (Py.JObject []) 4 = "{}".
Proof. reflexivity. Qed.

Lemma str_le_refl (a : string) : str_le a a.
Proof.
  destruct (String.leb_total a a); assumption.
Qed.

Lemma str_le_trans (a b c : string) : str_le a b -> str_le b c -> str_le a c.
Proof.
  unfold str_le, String.leb.
  revert b c; induction a as [|x a IH]; intros [|y b] [|z c]; simpl;
    try congruence.
  unfold Ascii.compare.
  destruct (N.compare_spec (N_of_ascii x) (N_of_ascii y)) as [Hxy|Hxy|Hxy];
    destruct (N.compare_spec (N_of_ascii y) (N_of_ascii z)) as [Hyz|Hyz|Hyz];
    destruct (N.compare_spec (N_of_ascii x) (N_of_ascii z)) as [Hxz|Hxz|Hxz];
    try lia; try congruence; auto.
  apply IH.
Qed.

Lemma str_lt_le (a b : string) : str_lt a b -> str_le a b.
Proof.
  unfold str_lt, str_le, String.ltb, String.leb.
  destruct (String.compare a b); congruence.
Qed.

Lemma str_le_neq_lt (a b : string) : str_le a b -> a <> b -> str_lt a b.
Proof.
  unfold str_lt, str_le, String.ltb, String.leb.
  destruct (String.compare a b) eqn:E; try congruence.
  apply String.compare_eq_iff in E. congruence.
Qed.

Lemma str_lt_irrefl (a : string) : ~ str_lt a a.
Proof.
  unfold str_lt, String.ltb.
  pose proof (String.compare_antisym a a) as H.
  destruct (String.compare a a); simpl in H; congruence.
Qed.

Lemma str_not_le_le (a b : string) : String.leb a b = false -> str_le b a.
Proof.
  intros H. destruct (String.leb_total a b) as [H'|H']; [congruence|exact H'].
Qed.

(** *** [sorted] sorts and permutes *)

Lemma insert_perm (x : string) (l : list string) :
  Permutation (x :: l) (Py.insert x l).
Proof.
  induction l as [|y l IH]; simpl.
  - apply Permutation_refl.
  - destruct (String.leb x y).
    + apply Permutation_refl.
    + eapply perm_trans; [apply perm_swap|]. apply perm_skip, IH.
Qed.

Lemma sorted_perm (l : list string) : Permutation l (Py.sorted l).
Proof.
  induction l as [|x l IH]; simpl.
  - constructor.
  - eapply perm_trans; [apply perm_skip, IH|]. apply insert_perm.
Qed.

Lemma insert_sorted (x : string) (l : list string) :
  StronglySorted str_le l -> StronglySorted str_le (Py.insert x l).
Proof.
  induction 1 as [|y l Hl IH Hy]; simpl.
  - repeat constructor.
  - destruct (String.leb x y) eqn:E.
    + constructor.
      * constructor; assumption.
      * constructor; [exact E|].
        eapply Forall_impl; [|exact Hy].
        intros z Hz. eapply str_le_trans; eassumption.
    + constructor; [exact IH|].
      eapply Permutation_Forall; [apply insert_perm|].
      constructor; [apply str_not_le_le, E|exact Hy].
Qed.

Lemma sorted_sorted (l : list string) : StronglySorted str_le (Py.sorted l).
Proof.
  induction l as [|x l IH]; simpl.
  - constructor.
  - apply insert_sorted, IH.
Qed.

Lemma sorted_In (l : list string) (x : string) : In x (Py.sorted l) <-> In x l.
Proof.
  split; intros H.
  - eapply Permutation_in; [apply Permutation_sym, sorted_perm|exact H].
  - eapply Permutation_in; [apply sorted_perm|exact H].
Qed.

Lemma sorted_length (l : list string) : List.length (Py.sorted l) = List.length l.
Proof.
  symmetry. apply Permutation_length, sorted_perm.
Qed.

(** Two sorted lists with the same elements are the same list: any correct
    sort of strings returns what [Py.sorted] returns. *)
Lemma sorted_unique (l1 l2 : list string) :
  StronglySorted str_le l1 -> StronglySorted str_le l2 ->
  Permutation l1 l2 -> l1 = l2.
Proof.
  intros H1; revert l2; induction H1 as [|x l1 Hs1 IH Hx]; intros l2 H2 Hp.
  - apply Permutation_nil in Hp. congruence.
  - destruct H2 as [|y l2 Hs2 Hy].
    + apply Permutation_sym, Permutation_nil in Hp. discriminate.
    + assert (x = y) as ->.
      { apply String.leb_antisym.
        - assert (In y (x :: l1)) as [->|Hin]
            by (eapply Permutation_in; [apply Permutation_sym, Hp|left; reflexivity]).
          + apply str_le_refl.
          + rewrite Forall_forall in Hx. apply Hx, Hin.
        - assert (In x (y :: l2)) as [->|Hin]
            by (eapply Permutation_in; [apply Hp|left; reflexivity]).
          + apply str_le_refl.
          + rewrite Forall_forall in Hy. apply Hy, Hin. }
      f_equal. apply IH; [exact Hs2|].
      eapply Permutation_cons_inv, Hp.
Qed.

(** *** [split] *)

Lemma split_not_nil (sep : ascii) (s : string) : Py.split sep s <> [].
Proof.
  destruct s as [|c s]; simpl; [discriminate|].
  destruct (Ascii.eqb c sep); [discriminate|].
  destruct (Py.split sep s); discriminate.
Qed.

(** Joining the segments with the separator gives the string back. *)
Lemma join_split (sep : ascii) (s : string) :
  Py.join (String sep EmptyString) (Py.split sep s) = s.
Proof.
  unfold Py.join.
  induction s as [|c s IH]; simpl; [reflexivity|].
  destruct (Ascii.eqb_spec c sep) as [->|Hne].
  - pose proof (split_not_nil sep s) as Hnil.
    simpl. destruct (Py.split sep s) as [|seg segs]; [congruence|].
    simpl. simpl in IH. rewrite IH. reflexivity.
  - pose proof (split_not_nil sep s) as Hnil.
    destruct (Py.split sep s) as [|seg segs]; [congruence|].
    simpl in *. destruct segs; simpl in *; rewrite <- IH; reflexivity.
Qed.

(** No segment contains the separator. *)
Lemma split_no_sep (sep : ascii) (s : string) :
  Forall (fun seg => occurs sep seg = false) (Py.split sep s).
Proof.
  induction s as [|c s IH]; simpl.
  - repeat constructor.
  - destruct (Ascii.eqb c sep) eqn:E.
    + constructor; [reflexivity|exact IH].
    + destruct (Py.split sep s) as [|seg segs].
      * repeat constructor. simpl. rewrite E. reflexivity.
      * inversion IH; subst. constructor; [|assumption].
        simpl. rewrite E. assumption.
Qed.

End PyFacts.

(** ** Facts about the monad and the resolvers *)

Ltac run_monad :=
  repeat (unfold bind, ret, raise, print, log_call, quit_error; simpl).

Lemma append_nil_r (s : string) : s ++ EmptyString = s.
Proof.
  induction s as [|c s IH]; simpl; congruence.
Qed.

Lemma truthy_Some (s : string) : s <> EmptyString -> truthy (Some s) = true.
Proof.
  intros H. simpl. destruct (String.eqb_spec s EmptyString); [contradiction|reflexivity].
Qed.

Lemma truthy_false (o : option string) :
  truthy o = false <-> o = None \/ o = Some EmptyString.
Proof.
  destruct o as [s|]; simpl.
  - destruct (String.eqb_spec s EmptyString) as [->|H]; simpl; split; intros H';
      auto; try discriminate.
    destruct H' as [H'|H']; [discriminate|]. congruence.
  - split; auto.
Qed.

(** A listing whose pages all arrive is walked to its end, one call per
    page. *)
Lemma iterate_ok (path : string) (pages : list Page) (w : World) :
  iterate path (map Ok pages) w
  = (Ok pages,
     mkWorld (stdin w) (stdout w) (stderr w)
       (calls w ++ repeat (GetParametersByPath path) (List.length pages))).
Proof.
  revert w; induction pages as [|page pages IH]; intros w; simpl.
  - unfold ret. rewrite app_nil_r. destruct w; reflexivity.
  - run_monad. rewrite IH. simpl. rewrite <- app_assoc. reflexivity.
Qed.

Lemma regions_comprehension (pages : list Page) :
  flat_map (fun page =>
    flat_map (fun region =>
      if negb (String.eqb (Value region) "global") then [Value region] else [])
      page) pages
  = filter (fun v => negb (String.eqb v "global")) (map Value (List.concat pages)).
Proof.
  induction pages as [|page pages IH]; simpl; [reflexivity|].
  rewrite map_app, filter_app, <- IH. f_equal.
  clear IH. induction page as [|r page IH]; simpl; [reflexivity|].
  destruct (negb (String.eqb (Value r) "global")); simpl; rewrite IH; reflexivity.
Qed.

Lemma services_comprehension (pages : list Page) :
  flat_map (fun page => flat_map (fun service => [Value service]) page) pages
  = map Value (List.concat pages).
Proof.
  induction pages as [|page pages IH]; simpl; [reflexivity|].
  rewrite map_app, <- IH.
  f_equal; clear IH; induction page as [|r page IH]; simpl; congruence.
Qed.

Lemma get_regions_override (ssm : SSM) (arguments : Namespace)
    (ssm_client s : string) (w : World) :
  s <> EmptyString ->
  region_overrides arguments = Some s ->
  get_regions ssm arguments ssm_client w = (Ok (Py.sorted (Py.split "," s)), w).
Proof.
  intros Hs Ho. unfold get_regions. rewrite Ho, (truthy_Some Hs). simpl.
  pose proof (@PyFacts.split_not_nil "," s) as Hnil.
  destruct (Py.split "," s); [congruence|]. reflexivity.
Qed.

Lemma get_region_services_override (ssm : SSM) (arguments : Namespace)
    (ssm_client region s : string) (w : World) :
  s <> EmptyString ->
  service_overrides arguments = Some s ->
  get_region_services ssm arguments ssm_client region w
  = (Ok (Py.sorted (Py.split "," s)), w).
Proof.
  intros Hs Ho. unfold get_region_services. rewrite Ho, (truthy_Some Hs). simpl.
  pose proof (@PyFacts.split_not_nil "," s) as Hnil.
  destruct (Py.split "," s); [congruence|]. reflexivity.
Qed.

Lemma get_regions_listing (ssm : SSM) (arguments : Namespace)
    (ssm_client : string) (w : World) (pages : list Page) :
  truthy (region_overrides arguments) = false ->
  get_parameters_by_path ssm (calls w) regions_path = map Ok pages ->
  let regions := filter (fun v => negb (String.eqb v "global")) (map Value (List.concat pages)) in
  get_regions ssm arguments ssm_client w
  = (Ok (Py.sorted regions),
     mkWorld (stdin w) (stdout w)
       (stderr w ++ ["Retrieving all AWS regions... ";
                     ("found " ++ Py.str_of_nat (List.length regions) ++ " regions.") ++ Py.nl])
       (calls w ++ repeat (GetParametersByPath regions_path) (List.length pages))).
Proof.
  intros Ht Hp regions. unfold get_regions. rewrite Ht.
  unfold bind at 1. unfold bind at 1. unfold print at 1. unfold bind at 1.
  unfold paginate. cbn [calls]. fold regions_path. rewrite Hp, iterate_ok.
  rewrite regions_comprehension. fold regions.
  run_monad. rewrite <- !app_assoc. reflexivity.
Qed.

Lemma get_region_services_listing (ssm : SSM) (arguments : Namespace)
    (ssm_client region : string) (w : World) (pages : list Page) :
  truthy (service_overrides arguments) = false ->
  get_parameters_by_path ssm (calls w) (services_path region) = map Ok pages ->
  let services := map Value (List.concat pages) in
  get_region_services ssm arguments ssm_client region w
  = (Ok (Py.sorted services),
     mkWorld (stdin w) (stdout w)
       (stderr w ++ ["Retrieving all services in " ++ region ++ "... ";
                     ("found " ++ Py.str_of_nat (List.length services) ++ " services.")
                       ++ Py.nl])
       (calls w ++ repeat (GetParametersByPath (services_path region)) (List.length pages))).
Proof.
  intros Ht Hp services. unfold get_region_services. rewrite Ht.
  unfold bind at 1. unfold bind at 1. unfold print at 1. unfold bind at 1.
  unfold paginate. cbn [calls]. rewrite Hp, iterate_ok.
  rewrite services_comprehension. fold services.
  run_monad. rewrite <- !app_assoc, !append_nil_r. reflexivity.
Qed.

(** ** Facts about batching *)

Lemma ceil_div_step (a d : nat) :
  1 <= d -> 1 <= a -> ceil_div a d = S (ceil_div (a - d) d).
Proof.
  intros Hd Ha. unfold ceil_div.
  replace (a + d - 1) with ((a - 1) + 1 * d) by lia.
  rewrite Nat.div_add by lia.
  destruct (Nat.le_gt_cases d a) as [Hle|Hgt].
  - replace (a - d + d - 1) with (a - 1) by lia. lia.
  - replace (a - d + d - 1) with (d - 1) by lia.
    rewrite !Nat.div_small by lia. lia.
Qed.

Lemma ceil_div_0 (d : nat) : 1 <= d -> ceil_div 0 d = 0.
Proof.
  intros Hd. unfold ceil_div. apply Nat.div_small. lia.
Qed.

(** [range] lists the multiples of the step below the stop. *)
Lemma range_from_spec (step fuel i stop : nat) :
  1 <= step -> stop <= fuel + i ->
  Py.range_from fuel i stop step
  = map (fun k => i + k * step) (seq 0 (ceil_div (stop - i) step)).
Proof.
  intros Hs. revert i; induction fuel as [|fuel IH]; intros i Hf; simpl.
  - replace (stop - i) with 0 by lia. rewrite ceil_div_0 by lia. reflexivity.
  - destruct (Nat.ltb_spec i stop) as [Hlt|Hge].
    + rewrite (@ceil_div_step (stop - i) step) by lia.
      simpl. f_equal; [lia|].
      rewrite IH by lia. rewrite <- seq_shift, map_map.
      replace (stop - i - step) with (stop - (i + step)) by lia.
      apply map_ext. intros k. lia.
    + replace (stop - i) with 0 by lia. rewrite ceil_div_0 by lia. reflexivity.
Qed.

Lemma range_spec (n step : nat) :
  1 <= step ->
  Py.range 0 n step = map (fun k => k * step) (seq 0 (ceil_div n step)).
Proof.
  intros Hs. unfold Py.range. rewrite range_from_spec by lia.
  rewrite Nat.sub_0_r. apply map_ext. intros k. lia.
Qed.

Lemma batches_length (names : list string) :
  List.length (batches names) = ceil_div (List.length names) 10.
Proof.
  unfold batches, slices. rewrite length_map, range_spec by lia.
  rewrite length_map, length_seq. reflexivity.
Qed.

Lemma batches_as_chunks (names : list string) :
  batches names
  = map (fun k => firstn 10 (skipn (k * 10) names))
        (seq 0 (ceil_div (List.length names) 10)).
Proof.
  unfold batches, slices. rewrite range_spec by lia. rewrite map_map.
  apply map_ext. intros k. unfold Py.slice. f_equal. lia.
Qed.

(** Cutting [firstn 10] off [ceil(len / 10)] times leaves the list whole. *)
Lemma chunks_concat (A : Type) (l : list A) (m : nat) :
  List.length l <= m * 10 ->
  List.concat (map (fun k => firstn 10 (skipn (k * 10) l)) (seq 0 m)) = l.
Proof.
  revert l; induction m as [|m IH]; intros l Hl.
  - destruct l; simpl in *; [reflexivity|lia].
  - rewrite <- cons_seq, <- seq_shift, map_cons, concat_cons, map_map.
    change (skipn (0 * 10) l) with l.
    transitivity (firstn 10 l ++ skipn 10 l)%list; [|apply firstn_skipn].
    f_equal.
    etransitivity; [|apply (IH (skipn 10 l)); rewrite length_skipn; lia].
    f_equal. apply map_ext. intros k.
    rewrite skipn_skipn. do 2 f_equal. lia.
Qed.

Lemma ceil_div_bound (n : nat) : n <= ceil_div n 10 * 10.
Proof.
  unfold ceil_div.
  pose proof (Nat.div_mod_eq (n + 10 - 1) 10) as H.
  pose proof (Nat.mod_upper_bound (n + 10 - 1) 10) as H'.
  lia.
Qed.


Lemma batches_concat (names : list string) :
  List.concat (batches names) = names.
Proof.
  rewrite batches_as_chunks. apply chunks_concat, ceil_div_bound.
Qed.


(** ** Facts about endpoint fetching *)

Lemma endpoints_of_app (region : string) (l1 l2 : list SsmParameter) :
  endpoints_of region (l1 ++ l2)
  = match endpoints_of region l1, endpoints_of region l2 with
    | Some t1, Some t2 => Some (t1 ++ t2)%list
    | _, _ => None
    end.
Proof.
  induction l1 as [|p l1 IH]; simpl.
  - destruct (endpoints_of region l2); reflexivity.
  - rewrite IH. destruct (endpoint_of region p); [|reflexivity].
    destruct (endpoints_of region l1); [|reflexivity].
    destruct (endpoints_of region l2); reflexivity.
Qed.

(** The inner loop appends one triple per returned parameter and touches
    nothing else; it stops at the first name that has no second-to-last
    segment. *)
Lemma append_endpoints_spec (region : string) (parameters : list SsmParameter)
    (acc : list triple) (w : World) :
  append_endpoints region parameters acc w
  = match endpoints_of region parameters with
    | Some ts => (Ok (acc ++ ts)%list, w)
    | None => (Raise IndexError, w)
    end.
Proof.
  revert acc; induction parameters as [|p parameters IH]; intros acc; simpl.
  - rewrite app_nil_r. reflexivity.
  - unfold endpoint_of.
    destruct (Py.index_from_end (Py.split "/" (Name p)) 2) as [service|];
      [|reflexivity].
    rewrite IH. destruct (endpoints_of region parameters) as [ts|]; [|reflexivity].
    rewrite <- app_assoc. reflexivity.
Qed.

Section Fetch.

Variable ssm : SSM.
Variables ssm_client region : string.
Variable parameter_names : list string.

Lemma fetch_batches_ok (indices : list nat) :
  forall (acc : list triple) (w : World) (responses : list BatchResponse)
         (ts : list triple),
  replay ssm (calls w) (slices parameter_names indices) = map Ok responses ->
  endpoints_of region (flat_map ResponseParameters responses) = Some ts ->
  fetch_batches ssm ssm_client region parameter_names indices acc w
  = (Ok (acc ++ ts)%list,
     mkWorld (stdin w) (stdout w)
       (stderr w ++ repeat "." (List.length indices))
       (calls w ++ map GetParameters (slices parameter_names indices))).
Proof.
  induction indices as [|i indices IH]; intros acc w responses ts Hr He.
  - destruct responses; [|discriminate]. simpl in He. injection He as <-.
    simpl. unfold ret. rewrite !app_nil_r. destruct w; reflexivity.
  - destruct responses as [|response responses]; [discriminate|].
    simpl in Hr. injection Hr as Hr1 Hr2.
    simpl in He. rewrite endpoints_of_app in He.
    destruct (endpoints_of region (ResponseParameters response)) as [t1|] eqn:E1;
      [|discriminate].
    destruct (endpoints_of region (flat_map ResponseParameters responses))
      as [t2|] eqn:E2; [|discriminate].
    injection He as <-.
    cbn [fetch_batches]. unfold bind at 1. unfold get_parameters_call.
    rewrite Hr1. cbn [log_call].
    unfold bind at 1. cbn [print]. unfold bind at 1.
    rewrite append_endpoints_spec, E1.
    erewrite IH; [|exact Hr2|exact E2].
    cbn. rewrite <- !app_assoc. reflexivity.
Qed.

Lemma fetch_batches_inv (indices : list nat) :
  forall (acc : list triple) (w w' : World) (r : list triple),
  fetch_batches ssm ssm_client region parameter_names indices acc w = (Ok r, w') ->
  exists (responses : list BatchResponse) (ts : list triple),
    replay ssm (calls w) (slices parameter_names indices) = map Ok responses
    /\ endpoints_of region (flat_map ResponseParameters responses) = Some ts
    /\ r = (acc ++ ts)%list.
Proof.
  induction indices as [|i indices IH]; intros acc w w' r H.
  - exists [], []. simpl in H. unfold ret in H. injection H as <- <-.
    rewrite app_nil_r. repeat split.
  - cbn [fetch_batches] in H. unfold bind at 1 in H.
    unfold get_parameters_call in H. cbn [log_call] in H.
    destruct (get_parameters ssm (calls w) (Py.slice parameter_names i (i + 10)))
      as [response|e] eqn:E; [|discriminate].
    unfold bind at 1 in H. cbn [print] in H. unfold bind at 1 in H.
    rewrite append_endpoints_spec in H.
    destruct (endpoints_of region (ResponseParameters response)) as [t1|] eqn:E1;
      [|discriminate].
    apply IH in H. destruct H as (responses & t2 & Hr & He & ->).
    exists (response :: responses), (t1 ++ t2)%list. repeat split.
    + simpl. rewrite E. f_equal. exact Hr.
    + simpl. rewrite endpoints_of_app, E1, He. reflexivity.
    + rewrite app_assoc. reflexivity.
Qed.

(** Whatever happens, the calls made are the first [k] requests, standard
    error receives one marker for each answered call, and standard input
    and output are left alone. *)
Lemma fetch_batches_calls (indices : list nat) :
  forall (acc : list triple) (w w' : World) (r : outcome (list triple)),
  fetch_batches ssm ssm_client region parameter_names indices acc w = (r, w') ->
  exists k j : nat,
    k <= List.length indices
    /\ calls w' = (calls w ++ map GetParameters (firstn k (slices parameter_names indices)))%list
    /\ stderr w' = (stderr w ++ repeat "." j)%list
    /\ stdout w' = stdout w /\ stdin w' = stdin w
    /\ (forall ts, r = Ok ts -> k = List.length indices).
Proof.
  induction indices as [|i indices IH]; intros acc w w' r H.
  - simpl in H. unfold ret in H. injection H as <- <-.
    exists 0, 0. simpl. rewrite !app_nil_r. repeat split; auto.
  - cbn [fetch_batches] in H. unfold bind at 1 in H.
    unfold get_parameters_call in H. cbn [log_call] in H.
    destruct (get_parameters ssm (calls w) (Py.slice parameter_names i (i + 10)))
      as [response|e] eqn:E.
    + unfold bind at 1 in H. cbn [print] in H. unfold bind at 1 in H.
      rewrite append_endpoints_spec in H.
      destruct (endpoints_of region (ResponseParameters response)) as [t1|] eqn:E1.
      * apply IH in H. destruct H as (k & j & Hk & Hc & He & Ho & Hi & Hall).
        exists (S k), (S j). cbn in *. rewrite Hc, He, <- !app_assoc.
        repeat split; auto; try lia.
        intros ts Hts. f_equal. eapply Hall, Hts.
      * injection H as <- <-. exists 1, 1. cbn.
        repeat split; auto; try lia. discriminate.
    + injection H as <- <-. exists 1, 0. cbn. rewrite app_nil_r.
      repeat split; auto; try lia. discriminate.
Qed.

End Fetch.

(** ** Facts about the result map *)

Section DictFacts.

Variable V : Type.

Lemma dict_get_In (k : string) (d : list (string * V)) (v : V) :
  Py.dict_get k d = Some v -> In (k, v) d.
Proof.
  induction d as [|[k' v'] d IH]; simpl; [discriminate|].
  destruct (String.eqb_spec k k') as [->|Hne].
  - intros [= ->]. left. reflexivity.
  - intros H. right. apply IH, H.
Qed.

Lemma dict_mem_keys (k : string) (d : list (string * V)) :
  Py.dict_mem k d = existsb (String.eqb k) (Py.keys d).
Proof.
  unfold Py.dict_mem. induction d as [|[k' v'] d IH]; simpl; [reflexivity|].
  destruct (String.eqb k k'); [reflexivity|exact IH].
Qed.

Lemma existsb_eqb_In (k : string) (ks : list string) :
  existsb (String.eqb k) ks = true <-> In k ks.
Proof.
  rewrite existsb_exists. split.
  - intros (x & Hx & He). apply String.eqb_eq in He. congruence.
  - intros H. exists k. split; [exact H|apply String.eqb_refl].
Qed.

Lemma dict_get_None (k : string) (d : list (string * V)) :
  Py.dict_get k d = None <-> ~ In k (Py.keys d).
Proof.
  induction d as [|[k' v'] d IH]; simpl.
  - tauto.
  - destruct (String.eqb_spec k k') as [->|Hne].
    + split; [discriminate|]. intros H. exfalso. apply H. left. reflexivity.
    + rewrite IH. split; [|tauto]. intros H [H'|H']; [congruence|tauto].
Qed.

(** Assigning to a key the dict holds keeps the keys as they are. *)
Lemma keys_dict_set_old (k : string) (v : V) (d : list (string * V)) :
  In k (Py.keys d) -> Py.keys (Py.dict_set k v d) = Py.keys d.
Proof.
  induction d as [|[k' v'] d IH]; simpl; [tauto|].
  destruct (String.eqb_spec k k') as [->|Hne]; [reflexivity|].
  intros [H|H]; [congruence|]. simpl. f_equal. apply IH, H.
Qed.

(** Assigning to a new key puts it last. *)
Lemma keys_dict_set_new (k : string) (v : V) (d : list (string * V)) :
  ~ In k (Py.keys d) -> Py.keys (Py.dict_set k v d) = (Py.keys d ++ [k])%list.
Proof.
  induction d as [|[k' v'] d IH]; simpl; [reflexivity|].
  destruct (String.eqb_spec k k') as [->|Hne]; [tauto|].
  intros H. simpl. f_equal. apply IH. tauto.
Qed.

Lemma keys_dict_set (k : string) (v : V) (d : list (string * V)) :
  Py.keys (Py.dict_set k v d) = add_key (Py.keys d) k.
Proof.
  unfold add_key. destruct (existsb (String.eqb k) (Py.keys d)) eqn:E.
  - apply keys_dict_set_old, existsb_eqb_In, E.
  - apply keys_dict_set_new. rewrite <- existsb_eqb_In. congruence.
Qed.

Lemma dict_get_set_same (k : string) (v : V) (d : list (string * V)) :
  Py.dict_get k (Py.dict_set k v d) = Some v.
Proof.
  induction d as [|[k' v'] d IH]; simpl.
  - rewrite String.eqb_refl. reflexivity.
  - destruct (String.eqb_spec k k') as [->|Hne]; simpl.
    + rewrite String.eqb_refl. reflexivity.
    + destruct (String.eqb_spec k k'); [contradiction|exact IH].
Qed.

Lemma dict_get_set_other (k k0 : string) (v : V) (d : list (string * V)) :
  k0 <> k -> Py.dict_get k0 (Py.dict_set k v d) = Py.dict_get k0 d.
Proof.
  intros Hne. induction d as [|[k' v'] d IH]; simpl.
  - destruct (String.eqb_spec k0 k); [contradiction|reflexivity].
  - destruct (String.eqb_spec k k') as [->|Hne']; simpl.
    + destruct (String.eqb_spec k0 k'); [contradiction|reflexivity].
    + destruct (String.eqb_spec k0 k'); [reflexivity|exact IH].
Qed.

(** With distinct keys, what a dict holds is what [dict_get] finds. *)
Lemma In_dict_get (k : string) (v : V) (d : list (string * V)) :
  NoDup (Py.keys d) -> In (k, v) d -> Py.dict_get k d = Some v.
Proof.
  induction d as [|[k' v'] d IH]; simpl; [tauto|].
  intros Hnd [H|H].
  - injection H as -> ->. rewrite String.eqb_refl. reflexivity.
  - inversion Hnd as [|? ? Hnotin Hnd']; subst.
    destruct (String.eqb_spec k k') as [->|Hne].
    + exfalso. apply Hnotin. apply (in_map fst) in H. exact H.
    + apply IH; assumption.
Qed.

End DictFacts.

Lemma add_key_In (ks : list string) (k x : string) :
  In x (add_key ks k) <-> In x ks \/ x = k.
Proof.
  unfold add_key. destruct (existsb (String.eqb k) ks) eqn:E.
  - apply existsb_eqb_In in E. split; [tauto|]. intros [H| ->]; assumption.
  - rewrite in_app_iff. simpl. split; intros [H|H]; auto.
    + destruct H as [H|[]]; auto.
Qed.

Lemma add_key_NoDup (ks : list string) (k : string) :
  NoDup ks -> NoDup (add_key ks k).
Proof.
  intros H. unfold add_key. destruct (existsb (String.eqb k) ks) eqn:E; [exact H|].
  apply NoDup_app; [exact H|repeat constructor; simpl; tauto|].
  intros x Hx [<-|[]].
  apply existsb_eqb_In in Hx. congruence.
Qed.

Lemma fold_add_key_In (l ks : list string) (x : string) :
  In x (fold_left add_key l ks) <-> In x ks \/ In x l.
Proof.
  revert ks; induction l as [|k l IH]; intros ks; simpl.
  - tauto.
  - rewrite IH, add_key_In. intuition congruence.
Qed.

Lemma fold_add_key_NoDup (l ks : list string) :
  NoDup ks -> NoDup (fold_left add_key l ks).
Proof.
  revert ks; induction l as [|k l IH]; intros ks H; simpl.
  - exact H.
  - apply IH, add_key_NoDup, H.
Qed.

Lemma insertion_order_In (l : list string) (x : string) :
  In x (insertion_order l) <-> In x l.
Proof.
  unfold insertion_order. rewrite fold_add_key_In. simpl. tauto.
Qed.

Lemma insertion_order_NoDup (l : list string) : NoDup (insertion_order l).
Proof.
  apply fold_add_key_NoDup. constructor.
Qed.

Lemma insertion_order_snoc (l : list string) (k : string) :
  insertion_order (l ++ [k]) = add_key (insertion_order l) k.
Proof.
  unfold insertion_order. rewrite fold_left_app. reflexivity.
Qed.

Lemma add_endpoint_keys (d : list (string * list (string * string))) (t : triple) :
  Py.keys (add_endpoint d t) = add_key (Py.keys d) (region_of t).
Proof.
  destruct t as [[r s] e]. unfold add_endpoint, region_of. simpl.
  rewrite dict_mem_keys. unfold add_key.
  destruct (existsb (String.eqb r) (Py.keys d)) eqn:E; simpl.
  - destruct (Py.dict_get r d) as [inner|] eqn:G.
    + apply keys_dict_set_old, existsb_eqb_In, E.
    + reflexivity.
  - rewrite dict_get_set_same.
    assert (~ In r (Py.keys d)) as Hn by (rewrite <- existsb_eqb_In; congruence).
    rewrite keys_dict_set_old
      by (rewrite keys_dict_set_new by exact Hn; apply in_or_app; right; left; reflexivity).
    apply keys_dict_set_new, Hn.
Qed.

Lemma add_endpoint_get_same (d : list (string * list (string * string))) (t : triple) :
  Py.dict_get (region_of t) (add_endpoint d t)
  = Some (assign (match Py.dict_get (region_of t) d with
                  | Some services => services
                  | None => []
                  end) t).
Proof.
  destruct t as [[r s] e]. unfold add_endpoint, region_of, assign. simpl.
  unfold Py.dict_mem.
  destruct (Py.dict_get r d) as [inner|] eqn:G; simpl.
  - rewrite ?G. apply dict_get_set_same.
  - rewrite dict_get_set_same. apply dict_get_set_same.
Qed.

Lemma add_endpoint_get_other (d : list (string * list (string * string))) (t : triple) (r0 : string) :
  r0 <> region_of t ->
  Py.dict_get r0 (add_endpoint d t) = Py.dict_get r0 d.
Proof.
  destruct t as [[r s] e]. unfold add_endpoint, region_of. simpl. intros Hne.
  unfold Py.dict_mem.
  destruct (Py.dict_get r d) as [inner|] eqn:G; simpl.
  - rewrite ?G. apply dict_get_set_other, Hne.
  - rewrite dict_get_set_same. rewrite !dict_get_set_other by exact Hne. reflexivity.
Qed.

Lemma build_json_data_snoc (ts : list triple) (t : triple) :
  build_json_data (ts ++ [t]) = add_endpoint (build_json_data ts) t.
Proof.
  unfold build_json_data. rewrite fold_left_app. reflexivity.
Qed.

(** The top-level keys are the regions of the triples, each at the place
    of its first triple. *)
Lemma build_json_data_keys (ts : list triple) :
  Py.keys (build_json_data ts) = insertion_order (map region_of ts).
Proof.
  induction ts as [|t ts IH] using rev_ind; [reflexivity|].
  rewrite build_json_data_snoc, add_endpoint_keys, IH, map_app.
  simpl. rewrite insertion_order_snoc. reflexivity.
Qed.

Lemma triples_of_region_snoc (r : string) (ts : list triple) (t : triple) :
  triples_of_region r (ts ++ [t])
  = if String.eqb (region_of t) r
    then (triples_of_region r ts ++ [t])%list
    else triples_of_region r ts.
Proof.
  unfold triples_of_region. rewrite filter_app. simpl.
  destruct (String.eqb (region_of t) r); [reflexivity|apply app_nil_r].
Qed.

(** A region is mapped to the dict of its own triples. *)
Lemma build_json_data_get (ts : list triple) (r : string) :
  Py.dict_get r (build_json_data ts)
  = if existsb (String.eqb r) (map region_of ts)
    then Some (region_dict r ts) else None.
Proof.
  induction ts as [|t ts IH] using rev_ind; [reflexivity|].
  rewrite build_json_data_snoc, map_app, existsb_app. simpl.
  unfold region_dict. rewrite triples_of_region_snoc.
  destruct (String.eqb_spec r (region_of t)) as [->|Hne].
  - rewrite add_endpoint_get_same, IH, String.eqb_refl.
    simpl. rewrite orb_true_r, fold_left_app. simpl. do 2 f_equal.
    destruct (existsb (String.eqb (region_of t)) (map region_of ts)) eqn:E;
      [reflexivity|].
    unfold region_dict, triples_of_region.
    assert (filter (fun t0 => String.eqb (region_of t0) (region_of t)) ts = []) as ->;
      [|reflexivity].
    clear IH. induction ts as [|t0 ts IH]; [reflexivity|].
    simpl in E. apply orb_false_iff in E. destruct E as [E1 E2].
    simpl. rewrite String.eqb_sym, E1. apply IH, E2.
  - rewrite add_endpoint_get_other by exact Hne. rewrite IH.
    rewrite orb_false_r.
    destruct (String.eqb_spec (region_of t) r); [congruence|]. reflexivity.
Qed.

Lemma dict_set_In (V : Type) (k k' : string) (v v' : V) (d : list (string * V)) :
  In (k', v') (Py.dict_set k v d) -> (k', v') = (k, v) \/ In (k', v') d.
Proof.
  induction d as [|[k0 v0] d IH]; simpl.
  - intros [H|[]]. left. congruence.
  - destruct (String.eqb_spec k k0) as [->|Hne]; simpl.
    + intros [H|H]; [left; congruence|right; right; exact H].
    + intros [H|H]; [right; left; exact H|].
      destruct (IH H) as [H'|H']; [left; exact H'|right; right; exact H'].
Qed.

Lemma fold_assign_keys (l : list triple) (d : list (string * string)) :
  Py.keys (fold_left assign l d) = fold_left add_key (map service_of l) (Py.keys d).
Proof.
  revert d; induction l as [|t l IH]; intros d; simpl; [reflexivity|].
  rewrite IH. unfold assign. rewrite keys_dict_set. reflexivity.
Qed.

Lemma fold_assign_In (l : list triple) (d : list (string * string)) (s e : string) :
  In (s, e) (fold_left assign l d) ->
  In (s, e) d \/ exists t, In t l /\ service_of t = s /\ endpoint_value t = e.
Proof.
  revert d; induction l as [|t l IH]; intros d; simpl; [tauto|].
  intros H. apply IH in H. destruct H as [H|(t' & Ht' & Hs & He)].
  - unfold assign in H. apply dict_set_In in H. destruct H as [H|H].
    + injection H as Hs He. right. exists t. auto.
    + left. exact H.
  - right. exists t'. auto.
Qed.

(** The keys of a region's dict are the services of its triples, each at
    the place of its first triple. *)
Lemma region_dict_keys (r : string) (ts : list triple) :
  Py.keys (region_dict r ts) = insertion_order (map service_of (triples_of_region r ts)).
Proof.
  unfold region_dict. rewrite fold_assign_keys. reflexivity.
Qed.

(** Every entry of a region's dict is one of the triples. *)
Lemma region_dict_In (r : string) (ts : list triple) (s e : string) :
  In (s, e) (region_dict r ts) -> In (r, s, e) ts.
Proof.
  unfold region_dict. intros H. apply fold_assign_In in H.
  destruct H as [[]|(t & Ht & Hs & He)].
  unfold triples_of_region in Ht. apply filter_In in Ht. destruct Ht as [Ht Hr].
  apply String.eqb_eq in Hr.
  destruct t as [[r' s'] e']. unfold region_of, service_of, endpoint_value in *.
  simpl in *. subst. exact Ht.
Qed.

Lemma build_json_data_NoDup (ts : list triple) :
  NoDup (Py.keys (build_json_data ts)).
Proof.
  rewrite build_json_data_keys. apply insertion_order_NoDup.
Qed.

(** An entry of the result map is a region of the triples with the dict of
    its triples. *)
Lemma build_json_data_In (ts : list triple) (r : string) (services : list (string * string)) :
  In (r, services) (build_json_data ts) ->
  services = region_dict r ts /\ In r (map region_of ts).
Proof.
  intros H. apply In_dict_get in H; [|apply build_json_data_NoDup].
  rewrite build_json_data_get in H.
  destruct (existsb (String.eqb r) (map region_of ts)) eqn:E; [|discriminate].
  injection H as <-. split; [reflexivity|]. apply existsb_eqb_In, E.
Qed.

(** A region with a triple has a dict that is not empty. *)
Lemma region_dict_not_nil (r : string) (ts : list triple) :
  In r (map region_of ts) -> region_dict r ts <> [].
Proof.
  intros H Hnil.
  apply in_map_iff in H. destruct H as (t & Hr & Ht).
  assert (In (service_of t) (Py.keys (region_dict r ts))) as Hin.
  { rewrite region_dict_keys, insertion_order_In. apply in_map.
    unfold triples_of_region. apply filter_In. split; [exact Ht|].
    apply String.eqb_eq, Hr. }
  rewrite Hnil in Hin. exact Hin.
Qed.

(** ** Sorted lists keep their order in a dict *)

Lemma add_key_sorted (ks : list string) (k : string) :
  StronglySorted str_lt ks -> Forall (fun x => str_le x k) ks ->
  StronglySorted str_lt (add_key ks k).
Proof.
  intros Hs Hle. unfold add_key.
  destruct (existsb (String.eqb k) ks) eqn:E; [exact Hs|].
  assert (~ In k ks) as Hn by (rewrite <- existsb_eqb_In; congruence).
  clear E. induction Hs as [|x ks Hs IH Hx]; simpl.
  - repeat constructor.
  - inversion Hle as [|? ? Hxk Hle']; subst.
    constructor.
    + apply IH; [exact Hle'|]. intros H. apply Hn. right. exact H.
    + apply Forall_app. split; [exact Hx|].
      constructor; [|constructor].
      apply PyFacts.str_le_neq_lt; [exact Hxk|].
      intros ->. apply Hn. left. reflexivity.
Qed.

(** The insertion order of a sorted list is strictly ascending. *)
Lemma insertion_order_sorted (l : list string) :
  StronglySorted str_le l -> StronglySorted str_lt (insertion_order l).
Proof.
  induction l as [|k l IH] using rev_ind; intros H.
  - constructor.
  - rewrite insertion_order_snoc.
    assert (StronglySorted str_le l /\ Forall (fun x => str_le x k) l) as [Hl Hk].
    { clear IH. induction l as [|y l IHl]; simpl in *.
      - split; constructor.
      - inversion H as [|? ? Hs Hy]; subst.
        destruct (IHl Hs) as [Hl Hk].
        apply Forall_app in Hy. destruct Hy as [Hy1 Hy2].
        split; constructor; auto.
        inversion Hy2; assumption. }
    apply add_key_sorted; [apply IH, Hl|].
    apply Forall_forall. intros x Hx. apply (proj1 (insertion_order_In _ _)) in Hx.
    rewrite Forall_forall in Hk. apply Hk, Hx.
Qed.

(** ** Facts about the monad: inversion and frames *)

Lemma bind_Ok_inv (A B : Type) (m : M A) (k : A -> M B) (w w' : World) (b : B) :
  bind m k w = (Ok b, w') ->
  exists (a : A) (w1 : World), m w = (Ok a, w1) /\ k a w1 = (Ok b, w').
Proof.
  unfold bind. destruct (m w) as [[a|e] w1]; [|discriminate].
  intros H. exists a, w1. split; [reflexivity|exact H].
Qed.

Lemma bind_inv (A B : Type) (m : M A) (k : A -> M B) (w w' : World) (r : outcome B) :
  bind m k w = (r, w') ->
  (exists (a : A) (w1 : World), m w = (Ok a, w1) /\ k a w1 = (r, w'))
  \/ (exists e : exn, m w = (Raise e, w') /\ r = Raise e).
Proof.
  unfold bind. destruct (m w) as [[a|e] w1].
  - intros H. left. exists a, w1. split; [reflexivity|exact H].
  - intros [= <- <-]. right. exists e. split; reflexivity.
Qed.

Lemma quiet_ret (A : Type) (a : A) : quiet (ret a).
Proof.
  intros w w' r [= <- <-]. split; reflexivity.
Qed.

Lemma quiet_raise (A : Type) (e : exn) : quiet (@raise A e).
Proof.
  intros w w' r [= <- <-]. split; reflexivity.
Qed.

Lemma quiet_bind (A B : Type) (m : M A) (k : A -> M B) :
  quiet m -> (forall a, quiet (k a)) -> quiet (bind m k).
Proof.
  intros Hm Hk w w' r H. apply bind_inv in H.
  destruct H as [(a & w1 & H1 & H2)|(e & H1 & _)].
  - apply Hm in H1. apply Hk in H2. destruct H1, H2. split; congruence.
  - apply Hm in H1. exact H1.
Qed.

Lemma quiet_print_stderr (msg end_ : string) : quiet (print Stderr msg end_).
Proof.
  intros w w' r [= <- <-]. split; reflexivity.
Qed.

Lemma quiet_log_call (c : ApiCall) : quiet (log_call c).
Proof.
  intros w w' r [= <- <-]. split; reflexivity.
Qed.

Ltac quiet_step :=
  first [ apply quiet_bind; [|intros ?]
        | apply quiet_ret | apply quiet_raise
        | apply quiet_print_stderr | apply quiet_log_call ].

Section Frames.

Variable ssm : SSM.
Variable arguments : Namespace.

Lemma quiet_iterate (path : string) (pages : list (outcome Page)) :
  quiet (iterate path pages).
Proof.
  induction pages as [|[page|e] pages IH]; simpl; repeat quiet_step.
  exact IH.
Qed.

Lemma quiet_paginate (ssm_client path : string) : quiet (paginate ssm ssm_client path).
Proof.
  intros w w' r H. unfold paginate in H. eapply quiet_iterate, H.
Qed.

Lemma quiet_get_regions (ssm_client : string) :
  quiet (get_regions ssm arguments ssm_client).
Proof.
  unfold get_regions.
  destruct (truthy (region_overrides arguments)); simpl.
  - destruct (option_map (Py.split ",") (region_overrides arguments)) as [[|x l]|];
      repeat quiet_step; apply quiet_paginate.
  - repeat quiet_step. apply quiet_paginate.
Qed.

Lemma quiet_get_region_services (ssm_client region : string) :
  quiet (get_region_services ssm arguments ssm_client region).
Proof.
  unfold get_region_services.
  destruct (truthy (service_overrides arguments)); simpl.
  - destruct (option_map (Py.split ",") (service_overrides arguments)) as [[|x l]|];
      repeat quiet_step; apply quiet_paginate.
  - repeat quiet_step. apply quiet_paginate.
Qed.

Lemma quiet_get_service_endpoints (ssm_client region : string) (services : list string) :
  quiet (get_service_endpoints ssm ssm_client region services).
Proof.
  intros w w' r H. unfold get_service_endpoints in H.
  apply fetch_batches_calls in H.
  destruct H as (k & j & _ & _ & _ & Ho & Hi & _). split; assumption.
Qed.

Lemma quiet_collect_endpoints (ssm_client : string) (regions : list string) :
  forall acc, quiet (collect_endpoints ssm arguments ssm_client regions acc).
Proof.
  induction regions as [|region regions IH]; intros acc; simpl.
  - apply quiet_ret.
  - apply quiet_bind; [apply quiet_get_region_services|intros services].
    apply quiet_bind.
    { destruct (negb (truthy (service_overrides arguments))); apply quiet_print_stderr. }
    intros _. apply quiet_bind; [apply quiet_get_service_endpoints|intros endpoints].
    apply quiet_bind; [apply quiet_print_stderr|intros _]. apply IH.
Qed.

Lemma quiet_create_client (service_name : string) : quiet (create_client ssm service_name).
Proof.
  unfold create_client. destruct (new_client ssm service_name); repeat quiet_step.
Qed.

(** Standard input and standard output are out of [generate_output_json]'s
    reach. *)
Lemma quiet_generate_output_json : quiet (generate_output_json ssm arguments).
Proof.
  unfold generate_output_json.
  apply quiet_bind; [apply quiet_create_client|intros c].
  apply quiet_bind; [apply quiet_get_regions|intros regions].
  apply quiet_bind; [apply quiet_collect_endpoints|intros ts].
  apply quiet_ret.
Qed.

End Frames.

(** ** Facts about the pipeline *)

Lemma endpoint_of_region (region : string) (p : SsmParameter) (t : triple) :
  endpoint_of region p = Some t ->
  region_of t = region /\ endpoint_value t = Value p.
Proof.
  unfold endpoint_of.
  destruct (Py.index_from_end (Py.split "/" (Name p)) 2); [|discriminate].
  intros [= <-]. split; reflexivity.
Qed.

Lemma endpoints_of_Forall2 (region : string) (ps : list SsmParameter) (ts : list triple) :
  endpoints_of region ps = Some ts <->
  Forall2 (fun p t => endpoint_of region p = Some t) ps ts.
Proof.
  revert ts; induction ps as [|p ps IH]; intros ts; simpl.
  - split.
    + intros [= <-]. constructor.
    + intros H. inversion H. reflexivity.
  - split.
    + destruct (endpoint_of region p) as [t|] eqn:E; [|discriminate].
      destruct (endpoints_of region ps) as [ts'|]; [|discriminate].
      intros [= <-]. constructor; [exact E|]. apply IH. reflexivity.
    + intros H. inversion H as [|? t ? ts' Hp Hps]; subst.
      rewrite Hp. apply IH in Hps. rewrite Hps. reflexivity.
Qed.

Lemma Forall2_In_r (A B : Type) (R : A -> B -> Prop) (l1 : list A) (l2 : list B) (b : B) :
  Forall2 R l1 l2 -> In b l2 -> exists a, In a l1 /\ R a b.
Proof.
  induction 1 as [|a b' l1 l2 Hab _ IH]; simpl; [tauto|].
  intros [<-|H].
  - exists a. auto.
  - destruct (IH H) as (a' & Ha' & HR). exists a'. auto.
Qed.

(** A response of the replay is the answer to one of the requests. *)
Lemma replay_In (ssm : SSM) (requests : list (list string)) :
  forall (history : list ApiCall) (responses : list BatchResponse)
         (response : BatchResponse),
  replay ssm history requests = map Ok responses ->
  In response responses ->
  exists (history' : list ApiCall) (names : list string),
    In names requests /\ get_parameters ssm history' names = Ok response.
Proof.
  induction requests as [|names requests IH]; intros history responses response Hr Hin.
  - destruct responses; [destruct Hin|discriminate].
  - destruct responses as [|response' responses]; [discriminate|].
    simpl in Hr. injection Hr as H1 H2.
    destruct Hin as [<-|Hin].
    + exists history, names. split; [left; reflexivity|exact H1].
    + destruct (IH _ _ _ H2 Hin) as (h & n & Hn & Hg).
      exists h, n. split; [right; exact Hn|exact Hg].
Qed.

Section Pipeline.

Variable ssm : SSM.
Variable arguments : Namespace.

(** Every triple [get_service_endpoints] returns carries the region it was
    called for and comes from a parameter the store returned. *)
Lemma get_service_endpoints_sound (ssm_client region : string) (services : list string)
    (w w' : World) (ts : list triple) :
  get_service_endpoints ssm ssm_client region services w = (Ok ts, w') ->
  Forall (fun t => region_of t = region /\ returned ssm region t) ts.
Proof.
  unfold get_service_endpoints. intros H.
  apply fetch_batches_inv in H. destruct H as (responses & ts' & Hr & He & ->).
  simpl. apply endpoints_of_Forall2 in He.
  apply Forall_forall. intros t Ht.
  destruct (@Forall2_In_r _ _ _ _ _ t He Ht) as (p & Hp & Hpt).
  split; [eapply endpoint_of_region, Hpt|].
  apply in_flat_map in Hp. destruct Hp as (response & Hresp & Hp).
  destruct (@replay_In _ _ _ _ _ Hr Hresp) as (h & names & Hn & Hg).
  exists h, services, names, response, p. auto.
Qed.

Lemma collect_endpoints_inv (ssm_client : string) (regions : list string) :
  forall (acc : list triple) (w w' : World) (r : list triple),
  collect_endpoints ssm arguments ssm_client regions acc w = (Ok r, w') ->
  exists parts : list (list triple),
    r = (acc ++ List.concat parts)%list
    /\ Forall2 (fun region part =>
                  Forall (fun t => region_of t = region /\ returned ssm region t) part)
               regions parts.
Proof.
  induction regions as [|region regions IH]; intros acc w w' r H.
  - simpl in H. injection H as <- <-. exists []. simpl.
    rewrite app_nil_r. split; [reflexivity|constructor].
  - cbn [collect_endpoints] in H.
    apply bind_Ok_inv in H. destruct H as (services & w1 & _ & H).
    apply bind_Ok_inv in H. destruct H as (u & w2 & _ & H).
    apply bind_Ok_inv in H. destruct H as (endpoints & w3 & Hg & H).
    apply bind_Ok_inv in H. destruct H as (u' & w4 & _ & H).
    apply IH in H. destruct H as (parts & -> & HF).
    exists (endpoints :: parts). simpl. rewrite app_assoc.
    split; [reflexivity|]. constructor; [|exact HF].
    eapply get_service_endpoints_sound, Hg.
Qed.

Lemma get_regions_sorted (ssm_client : string) (w w' : World) (regions : list string) :
  get_regions ssm arguments ssm_client w = (Ok regions, w') ->
  StronglySorted str_le regions.
Proof.
  unfold get_regions. intros H.
  apply bind_Ok_inv in H. destruct H as (l & w1 & _ & H).
  injection H as <- _. apply PyFacts.sorted_sorted.
Qed.

Lemma generate_output_json_inv (w w' : World) (text : string) :
  generate_output_json ssm arguments w = (Ok text, w') ->
  exists (regions : list string) (ts : list triple) (w1 : World),
    get_regions ssm arguments "ssm" w = (Ok regions, w1)
    /\ collect_endpoints ssm arguments "ssm" regions [] w1 = (Ok ts, w')
    /\ text = Py.dumps (to_json (build_json_data ts)) 4.
Proof.
  unfold generate_output_json. intros H.
  apply bind_Ok_inv in H. destruct H as (c & w0 & Hc & H).
  unfold create_client in Hc.
  destruct (new_client ssm "ssm"); [discriminate|]. injection Hc as <- <-.
  apply bind_Ok_inv in H. destruct H as (regions & w1 & Hr & H).
  apply bind_Ok_inv in H. destruct H as (ts & w2 & Ht & H).
  injection H as <- <-.
  exists regions, ts, w1. auto.
Qed.

End Pipeline.

Lemma StronglySorted_app (A : Type) (R : A -> A -> Prop) (l1 l2 : list A) :
  StronglySorted R l1 -> StronglySorted R l2 ->
  (forall x y, In x l1 -> In y l2 -> R x y) ->
  StronglySorted R (l1 ++ l2).
Proof.
  intros H1 H2 H. induction H1 as [|x l1 Hs IH Hx]; simpl; [exact H2|].
  constructor.
  - apply IH. intros a b Ha Hb. apply H; [right; exact Ha|exact Hb].
  - apply Forall_app. split; [exact Hx|].
    apply Forall_forall. intros y Hy. apply H; [left; reflexivity|exact Hy].
Qed.

Lemma StronglySorted_const (x : string) (l : list string) :
  Forall (fun y => y = x) l -> StronglySorted str_le l.
Proof.
  induction 1 as [|y l -> Hl IH]; constructor; [exact IH|].
  eapply Forall_impl; [|exact Hl]. intros a ->. apply PyFacts.str_le_refl.
Qed.

(** The triples come region by region, so their regions are in the order
    of the regions. *)
Lemma regions_of_parts_sorted (regions : list string) (parts : list (list triple)) :
  StronglySorted str_le regions ->
  Forall2 (fun region part => Forall (fun t => region_of t = region) part)
          regions parts ->
  StronglySorted str_le (map region_of (List.concat parts))
  /\ forall r, In r (map region_of (List.concat parts)) -> In r regions.
Proof.
  intros Hs HF. induction HF as [|region part regions parts Hp HF IH].
  - split; [constructor|intros r []].
  - inversion Hs as [|? ? Hs' Hle]; subst.
    destruct (IH Hs') as [IH1 IH2].
    simpl. rewrite map_app.
    assert (Forall (fun y => y = region) (map region_of part)) as Hall.
    { apply Forall_forall. intros y Hy. apply in_map_iff in Hy.
      destruct Hy as (t & <- & Ht). rewrite Forall_forall in Hp. apply Hp, Ht. }
    split.
    + apply StronglySorted_app; [apply (StronglySorted_const Hall)|exact IH1|].
      intros x y Hx Hy. rewrite Forall_forall in Hall. rewrite (Hall x Hx).
      rewrite Forall_forall in Hle. apply Hle, IH2, Hy.
    + intros r Hr. apply in_app_iff in Hr. destruct Hr as [Hr|Hr].
      * rewrite Forall_forall in Hall. left. symmetry. apply Hall, Hr.
      * right. apply IH2, Hr.
Qed.

(** ** Facts about the serialization *)

Lemma append_assoc (a b c : string) : (a ++ b) ++ c = a ++ (b ++ c).
Proof.
  induction a as [|x a IH]; simpl; congruence.
Qed.

(** Indenting after every separator is indenting every item. *)
Lemma join_indent (sep ind : string) (items : list string) :
  items <> [] ->
  ind ++ Py.join (sep ++ ind) items = Py.join sep (map (fun x => ind ++ x) items).
Proof.
  unfold Py.join. induction items as [|x items IH]; [congruence|]. intros _.
  destruct items as [|y items]; [reflexivity|].
  change (String.concat (sep ++ ind) (x :: y :: items))
    with (x ++ (sep ++ ind) ++ String.concat (sep ++ ind) (y :: items)).
  change (String.concat sep (map (fun x0 => ind ++ x0) (x :: y :: items)))
    with ((ind ++ x) ++ sep
            ++ String.concat sep (map (fun x0 => ind ++ x0) (y :: items))).
  rewrite <- IH by discriminate.
  rewrite !append_assoc. reflexivity.
Qed.

Lemma iterencode_services (services : list (string * string)) :
  Py.iterencode 4 1 (Py.JObject (map (fun se => (fst se, Py.JString (snd se))) services))
  = match services with
    | [] => "{}"
    | _ :: _ =>
        "{" ++ Py.nl ++ Py.join ("," ++ Py.nl) (map service_line services)
          ++ Py.nl ++ Py.spaces 4 ++ "}"
    end.
Proof.
  destruct services as [|se services]; [reflexivity|].
  set (l := se :: services).
  assert (l <> []) as Hl by discriminate.
  change (Py.iterencode 4 1
            (Py.JObject (map (fun se0 => (fst se0, Py.JString (snd se0))) l)))
    with ("{" ++ (Py.nl ++ Py.spaces 8)
            ++ Py.join ("," ++ Py.nl ++ Py.spaces 8)
                 (map (fun kv => Py.encode_basestring_ascii (fst kv) ++ ": "
                                   ++ Py.iterencode 4 2 (snd kv))
                      (map (fun se0 => (fst se0, Py.JString (snd se0))) l))
            ++ Py.nl ++ Py.spaces 4 ++ "}").
  rewrite (append_assoc Py.nl (Py.spaces 8)).
  rewrite <- (append_assoc (Py.spaces 8)).
  rewrite <- (append_assoc "," Py.nl (Py.spaces 8)).
  rewrite join_indent by (destruct l; [congruence|discriminate]).
  rewrite !map_map. unfold service_line. reflexivity.
Qed.

(** [json.dumps(json_data, indent = 4)] writes the two-level layout. *)
Lemma dumps_two_level (json_data : list (string * list (string * string))) :
  Py.dumps (to_json json_data) 4 = two_level_layout json_data.
Proof.
  destruct json_data as [|rs json_data]; [reflexivity|].
  set (l := rs :: json_data).
  assert (l <> []) as Hl by discriminate.
  unfold two_level_layout. fold l.
  change (Py.dumps (to_json l) 4)
    with ("{" ++ (Py.nl ++ Py.spaces 4)
            ++ Py.join ("," ++ Py.nl ++ Py.spaces 4)
                 (map (fun kv => Py.encode_basestring_ascii (fst kv) ++ ": "
                                   ++ Py.iterencode 4 1 (snd kv))
                      (map (fun rs0 =>
                              (fst rs0,
                               Py.JObject (map (fun se => (fst se, Py.JString (snd se)))
                                             (snd rs0)))) l))
            ++ Py.nl ++ "}").
  rewrite (append_assoc Py.nl (Py.spaces 4)).
  rewrite <- (append_assoc (Py.spaces 4)).
  rewrite <- (append_assoc "," Py.nl (Py.spaces 4)).
  rewrite join_indent by (destruct l; [congruence|discriminate]).
  rewrite !map_map. simpl fst. simpl snd.
  assert (map (fun x => Py.spaces 4 ++ Py.encode_basestring_ascii (fst x) ++ ": "
                          ++ Py.iterencode 4 1
                               (Py.JObject (map (fun se => (fst se, Py.JString (snd se)))
                                              (snd x)))) l
          = map region_block l) as ->.
  { apply map_ext. intros x. rewrite iterencode_services. reflexivity. }
  destruct l; [congruence|reflexivity].
Qed.

(** ** Facts about [main] and the handlers *)

Section MainFacts.

Variable ssm : SSM.
Variable arguments : Namespace.

Lemma main_filtered (w : World) :
  unfiltered arguments = false ->
  main ssm arguments w = pipeline ssm arguments w.
Proof.
  unfold unfiltered, main, pipeline. intros ->. reflexivity.
Qed.

Lemma main_unfiltered (w : World) :
  unfiltered arguments = true ->
  main ssm arguments w
  = (confirm_unfiltered_execution ;;; pipeline ssm arguments) w.
Proof.
  unfold unfiltered, main, pipeline. intros ->. reflexivity.
Qed.

(** The gate on an empty standard input. *)
Lemma confirm_eof (w : World) :
  stdin w = [] ->
  confirm_unfiltered_execution w
  = (Raise EOFError,
     mkWorld [] (stdout w ++ banner) (stderr w ++ [prompt]) (calls w)).
Proof.
  intros H. unfold confirm_unfiltered_execution. run_monad.
  unfold input. simpl. rewrite H, <- app_assoc. reflexivity.
Qed.

(** The gate interrupted while it waits for the answer. *)
Lemma confirm_interrupt (w : World) (rest : list stdin_event) :
  stdin w = Interrupt :: rest ->
  confirm_unfiltered_execution w
  = (Raise KeyboardInterrupt,
     mkWorld rest (stdout w ++ banner) (stderr w ++ [prompt]) (calls w)).
Proof.
  intros H. unfold confirm_unfiltered_execution. run_monad.
  unfold input. simpl. rewrite H, <- app_assoc. reflexivity.
Qed.

(** The gate with an answer. *)
Lemma confirm_answer (w : World) (answer : string) (rest : list stdin_event) :
  stdin w = Line answer :: rest ->
  confirm_unfiltered_execution w
  = if String.eqb (Py.lower answer) "y"
    then (Ok tt, mkWorld rest (stdout w ++ banner) (stderr w ++ [prompt]) (calls w))
    else (Raise (SystemExit 1),
          mkWorld rest (stdout w ++ banner)
            (stderr w ++ [prompt; "User aborted program" ++ Py.nl]) (calls w)).
Proof.
  intros H. unfold confirm_unfiltered_execution. run_monad.
  unfold input. simpl. rewrite H, <- !app_assoc.
  destruct (String.eqb (Py.lower answer) "y"); simpl; [reflexivity|].
  run_monad. rewrite <- !app_assoc. reflexivity.
Qed.

(** What the gate leaves on standard output, whatever its outcome. *)
Lemma confirm_stdout (w w' : World) (r : outcome unit) :
  confirm_unfiltered_execution w = (r, w') ->
  stdout w' = (stdout w ++ banner)%list /\ calls w' = calls w.
Proof.
  destruct (stdin w) as [|[answer|] rest] eqn:E.
  - rewrite (confirm_eof _ E). intros [= <- <-]. split; reflexivity.
  - rewrite (confirm_answer _ E).
    destruct (String.eqb (Py.lower answer) "y"); intros [= <- <-]; split; reflexivity.
  - rewrite (confirm_interrupt _ E). intros [= <- <-]. split; reflexivity.
Qed.

Lemma pipeline_stdout (w w' : World) (r : outcome unit) :
  pipeline ssm arguments w = (r, w') ->
  match r with
  | Ok _ =>
      exists (text : string) (w1 : World),
        generate_output_json ssm arguments w = (Ok text, w1)
        /\ stdout w' = (stdout w ++ [(text ++ Py.nl)%string])%list
  | Raise e => stdout w' = stdout w
  end.
Proof.
  unfold pipeline. intros H. apply bind_inv in H.
  destruct H as [(text & w1 & Hg & Hp)|(e & Hg & ->)].
  - injection Hp as <- <-. exists text, w1. split; [exact Hg|].
    apply quiet_generate_output_json in Hg. destruct Hg as [Ho _].
    simpl. rewrite Ho. reflexivity.
  - apply quiet_generate_output_json in Hg. apply Hg.
Qed.

(** Standard output after [main]: the two lines of the gate when it ran,
    then the document when [main] came to its end, and nothing else. *)
Lemma main_stdout (w w' : World) (r : outcome unit) :
  main ssm arguments w = (r, w') ->
  match r with
  | Ok _ =>
      exists (text : string) (w0 w1 : World),
        generate_output_json ssm arguments w0 = (Ok text, w1)
        /\ stdout w'
           = ((stdout w ++ if unfiltered arguments then banner else [])
                ++ [(text ++ Py.nl)%string])%list
  | Raise e =>
      stdout w' = (stdout w ++ if unfiltered arguments then banner else [])%list
  end.
Proof.
  destruct (unfiltered arguments) eqn:U.
  - rewrite (main_unfiltered _ U). intros H. apply bind_inv in H.
    destruct H as [(u & w1 & Hc & Hp)|(e & Hc & ->)].
    + apply confirm_stdout in Hc. destruct Hc as [Hc _].
      apply pipeline_stdout in Hp. destruct r as [u'|e].
      * destruct Hp as (text & w2 & Hg & Ho). exists text, w1, w2.
        split; [exact Hg|]. rewrite Ho, Hc. reflexivity.
      * rewrite Hp, Hc. reflexivity.
    + apply confirm_stdout in Hc. apply Hc.
  - rewrite (main_filtered _ U). intros H.
    apply pipeline_stdout in H. destruct r as [u'|e].
    + destruct H as (text & w2 & Hg & Ho). exists text, w, w2.
      split; [exact Hg|]. rewrite Ho, app_nil_r. reflexivity.
    + rewrite H, app_nil_r. reflexivity.
Qed.

(** The [try] statement, exception by exception. *)
Lemma script_spec (w : World) :
  script ssm arguments w
  = match main ssm arguments w with
    | (Ok u, w') => (Ok u, w')
    | (Raise e, w') =>
        match handled e with
        | Some message =>
            (Raise (SystemExit 1),
             mkWorld (stdin w') (stdout w') (stderr w' ++ [message ++ Py.nl]) (calls w'))
        | None => (Raise e, w')
        end
    end.
Proof.
  unfold script. destruct (main ssm arguments w) as [[u|e] w']; [reflexivity|].
  destruct e; reflexivity.
Qed.

End MainFacts.

(** Only 'y' and 'Y' lower-case to 'y'. *)
Lemma lower_is_y (answer : string) :
  Py.lower answer = "y" <-> answer = "y" \/ answer = "Y".
Proof.
  split.
  - destruct answer as [|c [|c' rest]]; simpl; try discriminate.
    intros [= H].
    destruct c as [[] [] [] [] [] [] [] []]; vm_compute in H; try discriminate H;
      auto.
  - intros [->| ->]; reflexivity.
Qed.

(** The document starts with a brace, and the lines of the gate do not. *)
Lemma dumps_starts_with_brace (json_data : list (string * list (string * string))) :
  exists rest, Py.dumps (to_json json_data) 4 = String "{" rest.
Proof.
  rewrite dumps_two_level. destruct json_data; simpl; eexists; reflexivity.
Qed.

Lemma banner_not_json (json_data : list (string * list (string * string))) :
  ~ In (Py.dumps (to_json json_data) 4 ++ Py.nl) banner.
Proof.
  destruct (dumps_starts_with_brace json_data) as (rest & ->).
  simpl. intros [H|[H|[]]]; discriminate H.
Qed.

(** ** Facts about empty overrides *)

Lemma bind_ext (A B : Type) (m m' : M A) (k k' : A -> M B) (w : World) :
  m w = m' w -> (forall a w1, k a w1 = k' a w1) -> bind m k w = bind m' k' w.
Proof.
  intros Hm Hk. unfold bind. rewrite Hm.
  destruct (m' w) as [[a|e] w1]; [apply Hk|reflexivity].
Qed.

Lemma truthy_absent_if_empty (o : option string) :
  truthy (absent_if_empty o) = truthy o.
Proof.
  destruct o as [s|]; simpl; [|reflexivity].
  destruct (String.eqb s EmptyString) eqn:E; simpl; [reflexivity|].
  rewrite E. reflexivity.
Qed.

Lemma absent_if_empty_truthy (o : option string) :
  truthy o = true -> absent_if_empty o = o.
Proof.
  destruct o as [s|]; simpl; [|discriminate].
  destruct (String.eqb s EmptyString); [discriminate|reflexivity].
Qed.

Lemma unfiltered_normalize (arguments : Namespace) :
  unfiltered (normalize arguments) = unfiltered arguments.
Proof.
  unfold unfiltered, normalize. simpl. rewrite !truthy_absent_if_empty. reflexivity.
Qed.

Section Normalize.

Variable ssm : SSM.
Variable arguments : Namespace.

Lemma get_regions_normalize (ssm_client : string) (w : World) :
  get_regions ssm (normalize arguments) ssm_client w
  = get_regions ssm arguments ssm_client w.
Proof.
  unfold get_regions, normalize. simpl. rewrite truthy_absent_if_empty.
  destruct (truthy (region_overrides arguments)) eqn:E; [|reflexivity].
  rewrite (absent_if_empty_truthy _ E). reflexivity.
Qed.

Lemma get_region_services_normalize (ssm_client region : string) (w : World) :
  get_region_services ssm (normalize arguments) ssm_client region w
  = get_region_services ssm arguments ssm_client region w.
Proof.
  unfold get_region_services, normalize. simpl. rewrite truthy_absent_if_empty.
  destruct (truthy (service_overrides arguments)) eqn:E; [|reflexivity].
  rewrite (absent_if_empty_truthy _ E). reflexivity.
Qed.

Lemma collect_endpoints_normalize (ssm_client : string) (regions : list string) :
  forall (acc : list triple) (w : World),
  collect_endpoints ssm (normalize arguments) ssm_client regions acc w
  = collect_endpoints ssm arguments ssm_client regions acc w.
Proof.
  induction regions as [|region regions IH]; intros acc w; [reflexivity|].
  cbn [collect_endpoints].
  apply bind_ext; [apply get_region_services_normalize|intros services w1].
  apply bind_ext.
  { unfold normalize. simpl. rewrite truthy_absent_if_empty. reflexivity. }
  intros _ w2. apply bind_ext; [reflexivity|intros endpoints w3].
  apply bind_ext; [reflexivity|intros _ w4]. apply IH.
Qed.

Lemma generate_output_json_normalize (w : World) :
  generate_output_json ssm (normalize arguments) w
  = generate_output_json ssm arguments w.
Proof.
  unfold generate_output_json.
  apply bind_ext; [reflexivity|intros c w1].
  apply bind_ext; [apply get_regions_normalize|intros regions w2].
  apply bind_ext; [apply collect_endpoints_normalize|reflexivity].
Qed.

Lemma main_normalize (w : World) :
  main ssm (normalize arguments) w = main ssm arguments w.
Proof.
  unfold main. fold (unfiltered (normalize arguments)). fold (unfiltered arguments).
  rewrite unfiltered_normalize.
  apply bind_ext; [reflexivity|intros _ w1].
  apply bind_ext; [apply generate_output_json_normalize|reflexivity].
Qed.

End Normalize.

(** ** Facts about the second-to-last segment *)

Lemma split_length_occurs (sep : ascii) (s : string) :
  occurs sep s = true -> 2 <= List.length (Py.split sep s).
Proof.
  induction s as [|c s IH]; simpl; [discriminate|].
  pose proof (@PyFacts.split_not_nil sep s) as Hnil.
  destruct (Ascii.eqb c sep); simpl.
  - intros _. destruct (Py.split sep s); [congruence|simpl; lia].
  - intros H. specialize (IH H).
    destruct (Py.split sep s); simpl in *; lia.
Qed.

Lemma last_two (A : Type) (l : list A) :
  2 <= List.length l -> exists before x y, l = (before ++ [x; y])%list.
Proof.
  intros H. rewrite <- (rev_involutive l).
  destruct (rev l) as [|y [|x r]] eqn:E.
  - apply (f_equal (@List.length A)) in E. rewrite length_rev in E. simpl in E. lia.
  - apply (f_equal (@List.length A)) in E. rewrite length_rev in E. simpl in E. lia.
  - exists (rev r), x, y. simpl. rewrite <- app_assoc. reflexivity.
Qed.

Lemma index_from_end_last_two (A : Type) (before : list A) (x y : A) :
  Py.index_from_end (before ++ [x; y]) 2 = Some x.
Proof.
  unfold Py.index_from_end. rewrite length_app. simpl.
  destruct (Nat.ltb_spec (List.length before + 2) 2) as [H|H]; [lia|].
  replace (List.length before + 2 - 2) with (List.length before) by lia.
  rewrite nth_error_app2 by lia. rewrite Nat.sub_diag. reflexivity.
Qed.

Lemma index_from_end_inv (A : Type) (l : list A) (x : A) :
  Py.index_from_end l 2 = Some x -> exists before last, l = (before ++ [x; last])%list.
Proof.
  intros H.
  assert (2 <= List.length l) as Hlen.
  { unfold Py.index_from_end in H.
    destruct (Nat.ltb_spec (List.length l) 2); [discriminate|assumption]. }
  destruct (last_two l Hlen) as (before & x' & y & ->).
  rewrite index_from_end_last_two in H. injection H as ->.
  exists before, y. reflexivity.
Qed.

(** The triple of a parameter: the region asked for, the second-to-last
    segment of the name, and the value. *)
Lemma endpoint_of_inv (region : string) (p : SsmParameter) (t : triple) :
  endpoint_of region p = Some t ->
  exists before service last,
    Py.split "/" (Name p) = (before ++ [service; last])%list
    /\ t = (region, service, Value p).
Proof.
  unfold endpoint_of.
  destruct (Py.index_from_end (Py.split "/" (Name p)) 2) as [service|] eqn:E;
    [|discriminate].
  intros [= <-]. apply index_from_end_inv in E. destruct E as (before & last & E).
  exists before, service, last. split; [exact E|reflexivity].
Qed.

Lemma endpoint_of_total (region : string) (p : SsmParameter) :
  occurs "/" (Name p) = true -> exists t, endpoint_of region p = Some t.
Proof.
  intros H. apply split_length_occurs in H.
  destruct (last_two _ H) as (before & x & y & E).
  unfold endpoint_of. rewrite E, index_from_end_last_two. eexists. reflexivity.
Qed.

Lemma endpoints_of_total (region : string) (ps : list SsmParameter) :
  Forall (fun p => occurs "/" (Name p) = true) ps ->
  exists ts, endpoints_of region ps = Some ts.
Proof.
  induction 1 as [|p ps Hp _ IH]; simpl.
  - exists []. reflexivity.
  - destruct (endpoint_of_total region p Hp) as (t & ->).
    destruct IH as (ts & ->). eexists. reflexivity.
Qed.


(** ** Facts about whole runs *)

(** What a run of [generate_output_json] that ends well has collected. *)
Lemma generate_output_json_collected (ssm : SSM) (arguments : Namespace)
    (w w' : World) (text : string) :
  generate_output_json ssm arguments w = (Ok text, w') ->
  exists (regions : list string) (ts : list triple) (w1 : World),
    get_regions ssm arguments "ssm" w = (Ok regions, w1)
    /\ collect_endpoints ssm arguments "ssm" regions [] w1 = (Ok ts, w')
    /\ text = Py.dumps (to_json (build_json_data ts)) 4
    /\ StronglySorted str_le (map region_of ts)
    /\ Forall (fun t => In (region_of t) regions /\ returned ssm (region_of t) t) ts.
Proof.
  intros H. apply generate_output_json_inv in H.
  destruct H as (regions & ts & w1 & Hr & Hc & Ht).
  exists regions, ts, w1. repeat split; try assumption.
  - apply collect_endpoints_inv in Hc. destruct Hc as (parts & -> & HF).
    simpl. apply get_regions_sorted in Hr.
    eapply regions_of_parts_sorted; [exact Hr|].
    eapply Forall2_impl; [|exact HF]. intros region part Hp.
    eapply Forall_impl; [|exact Hp]. intros t [Ht' _]. exact Ht'.
  - apply get_regions_sorted in Hr.
    apply collect_endpoints_inv in Hc. destruct Hc as (parts & -> & HF). simpl.
    assert (Forall2 (fun region part => Forall (fun t => region_of t = region) part)
                    regions parts) as HF'.
    { eapply Forall2_impl; [|exact HF]. intros region part Hp.
      eapply Forall_impl; [|exact Hp]. intros t [Ht' _]. exact Ht'. }
    destruct (regions_of_parts_sorted Hr HF') as [_ Hin].
    apply Forall_forall. intros t Ht'. split.
    + apply Hin, in_map, Ht'.
    + apply in_concat in Ht'. destruct Ht' as (part & Hpart & Htp).
      destruct (@Forall2_In_r _ _ _ _ _ part HF Hpart) as (region & _ & Hp).
      rewrite Forall_forall in Hp. destruct (Hp t Htp) as [-> Hret]. exact Hret.
Qed.

Lemma keys_unique (V : Type) (d : list (string * V)) (k : string) (v1 v2 : V) :
  NoDup (Py.keys d) -> In (k, v1) d -> In (k, v2) d -> v1 = v2.
Proof.
  intros Hnd H1 H2.
  apply (In_dict_get _ _ _ Hnd) in H1. apply (In_dict_get _ _ _ Hnd) in H2.
  congruence.
Qed.

Lemma region_dict_NoDup (r : string) (ts : list triple) :
  NoDup (Py.keys (region_dict r ts)).
Proof.
  rewrite region_dict_keys. apply insertion_order_NoDup.
Qed.

Lemma In_triples_of_region (r s : string) (ts : list triple) :
  In s (map service_of (triples_of_region r ts)) <-> exists e, In (r, s, e) ts.
Proof.
  rewrite in_map_iff. split.
  - intros (t & Hs & Ht). unfold triples_of_region in Ht.
    apply filter_In in Ht. destruct Ht as [Ht Hr]. apply String.eqb_eq in Hr.
    destruct t as [[r' s'] e]. unfold region_of, service_of in *. simpl in *.
    subst. exists e. exact Ht.
  - intros (e & Ht). exists (r, s, e). split; [reflexivity|].
    unfold triples_of_region. apply filter_In. split; [exact Ht|].
    apply String.eqb_refl.
Qed.

Lemma In_regions_of (r : string) (ts : list triple) :
  In r (map region_of ts) <-> exists s e, In (r, s, e) ts.
Proof.
  rewrite in_map_iff. split.
  - intros ([[r' s] e] & Hr & Ht). unfold region_of in Hr. simpl in Hr. subst.
    exists s, e. exact Ht.
  - intros (s & e & Ht). exists (r, s, e). split; [reflexivity|exact Ht].
Qed.

Lemma run_spec (ssm : SSM) (arguments : Namespace) (w : World) :
  run ssm arguments w
  = match main ssm arguments w with
    | (Ok _, w') => (Exited 0, w')
    | (Raise e, w') =>
        match handled e with
        | Some message =>
            (Exited 1,
             mkWorld (stdin w') (stdout w') (stderr w' ++ [message ++ Py.nl]) (calls w'))
        | None => (exit_status (Raise e), w')
        end
    end.
Proof.
  unfold run. rewrite script_spec.
  destruct (main ssm arguments w) as [[u|e] w']; [reflexivity|].
  destruct (handled e); reflexivity.
Qed.

Lemma pipeline_stdin (ssm : SSM) (arguments : Namespace) (w w' : World)
    (r : outcome unit) :
  pipeline ssm arguments w = (r, w') -> stdin w' = stdin w.
Proof.
  unfold pipeline. intros H. apply bind_inv in H.
  destruct H as [(text & w1 & Hg & Hp)|(e & Hg & _)].
  - injection Hp as _ <-. apply quiet_generate_output_json in Hg. apply Hg.
  - apply quiet_generate_output_json in Hg. apply Hg.
Qed.

Lemma run_stdin_stdout (ssm : SSM) (arguments : Namespace) (w : World) :
  stdin (snd (run ssm arguments w)) = stdin (snd (main ssm arguments w))
  /\ stdout (snd (run ssm arguments w)) = stdout (snd (main ssm arguments w)).
Proof.
  rewrite run_spec. destruct (main ssm arguments w) as [[u|e] w']; simpl; [tauto|].
  destruct (handled e); simpl; tauto.
Qed.

Lemma json_structure_stdout (ssm : SSM) (arguments : Namespace) (w w' : World) :
  main ssm arguments w = (Ok tt, w') ->
  exists ts : list triple,
    stdout w'
    = ((stdout w ++ if unfiltered arguments then banner else [])
         ++ [(Py.dumps (to_json (build_json_data ts)) 4 ++ Py.nl)%string])%list.
Proof.
  intros H. apply main_stdout in H. destruct H as (text & w0 & w1 & Hg & Ho).
  apply generate_output_json_inv in Hg. destruct Hg as (regions & ts & w2 & _ & _ & ->).
  exists ts. exact Ho.
Qed.


(** ** Facts about the regions of a run *)

Lemma range_length (n : nat) :
  List.length (Py.range 0 n 10) = ceil_div n 10.
Proof.
  rewrite range_spec by lia. rewrite length_map, length_seq. reflexivity.
Qed.

Lemma get_service_endpoints_world (ssm : SSM) (ssm_client region : string)
    (services : list string) (w w' : World) (ts : list triple) :
  get_service_endpoints ssm ssm_client region services w = (Ok ts, w') ->
  w' = mkWorld (stdin w) (stdout w)
         (stderr w ++ repeat "." (ceil_div (List.length services) 10))
         (calls w ++ region_calls services region).
Proof.
  intros H. unfold get_service_endpoints in H.
  pose proof H as H'. apply fetch_batches_inv in H'.
  destruct H' as (responses & ts' & Hr & He & _).
  erewrite fetch_batches_ok in H; [|exact Hr|exact He].
  injection H as _ <-. rewrite range_length. unfold region_calls, batches.
  rewrite !length_map. reflexivity.
Qed.

Lemma endpoints_triple_of (region : string) (ps : list SsmParameter) (ts : list triple) :
  Forall2 (fun p t => endpoint_of region p = Some t) ps ts ->
  Forall2 triple_of (map (pair region) ps) ts.
Proof.
  induction 1 as [|p t ps ts Hpt _ IH]; simpl; constructor; [|exact IH].
  unfold triple_of. simpl. apply endpoint_of_inv, Hpt.
Qed.

Lemma print_header (arguments : Namespace) (region : string) (services : list string)
    (w w' : World) (u : unit) :
  (if negb (truthy (service_overrides arguments))
   then print Stderr ("Retrieving endpoints for " ++ region ++ "...") ""
   else print Stderr
          ("Retrieving endpoint(s) for " ++ Py.join ", " services
             ++ " in " ++ region ++ "...") "") w = (Ok u, w') ->
  w' = mkWorld (stdin w) (stdout w)
         (stderr w ++ [region_header arguments region services]) (calls w).
Proof.
  unfold region_header.
  destruct (negb (truthy (service_overrides arguments))); intros [= _ <-];
    cbn [print]; rewrite append_nil_r; reflexivity.
Qed.

(** A run of the loop over the regions that ends well went through the
    regions step by step, and returns one triple per returned parameter, in
    the order in which the parameters were returned. *)
Lemma collect_endpoints_steps (ssm : SSM) (arguments : Namespace)
    (regions : list string) :
  forall (acc : list triple) (w w' : World) (r : list triple),
  collect_endpoints ssm arguments "ssm" regions acc w = (Ok r, w') ->
  exists (steps : list step) (ts : list triple),
    map step_region steps = regions
    /\ region_steps ssm arguments w steps w'
    /\ r = (acc ++ ts)%list
    /\ Forall2 triple_of (returned_parameters steps) ts.
Proof.
  induction regions as [|region regions IH]; intros acc w w' r H.
  - injection H as <- <-. exists [], []. simpl. rewrite app_nil_r.
    repeat split. constructor.
  - cbn [collect_endpoints] in H.
    apply bind_Ok_inv in H. destruct H as (services & w1 & Hs & H).
    apply bind_Ok_inv in H. destruct H as (u & w1p & Hprint & H).
    apply bind_Ok_inv in H. destruct H as (endpoints & w3 & Hg & H).
    apply bind_Ok_inv in H. destruct H as (u' & w4 & Hdone & H).
    apply print_header in Hprint. subst w1p.
    pose proof (get_service_endpoints_world _ _ _ _ _ Hg) as Hw3.
    unfold get_service_endpoints in Hg. apply fetch_batches_inv in Hg.
    destruct Hg as (responses & ts' & Hr & He & Hts). simpl in Hts. subst endpoints.
    cbn [calls] in Hr.
    injection Hdone as _ <-. subst w3.
    apply IH in H. destruct H as (steps & ts & Hmap & Hsteps & -> & HF).
    exists ((region, services, responses) :: steps), (ts' ++ ts)%list.
    split; [simpl; f_equal; exact Hmap|].
    split.
    { cbn [region_steps step_region step_services step_responses fst snd].
      exists w1. split; [exact Hs|]. split; [exact Hr|].
      replace (after_region arguments region services w1)
        with (mkWorld (stdin w1) (stdout w1)
                (((stderr w1 ++ [region_header arguments region services])
                    ++ repeat "." (ceil_div (List.length services) 10))
                   ++ [(" done." ++ Py.nl)%string])
                (calls w1 ++ region_calls services region)); [exact Hsteps|].
      unfold after_region. f_equal.
      repeat first [rewrite <- app_assoc | progress cbn [app]]; reflexivity. }
    split; [rewrite app_assoc; reflexivity|].
    unfold returned_parameters. cbn [flat_map step_region step_responses fst snd].
    apply Forall2_app; [|exact HF].
    apply endpoints_triple_of, endpoints_of_Forall2, He.
Qed.

Lemma Forall2_In_l (A B : Type) (R : A -> B -> Prop) (l1 : list A) (l2 : list B) (a : A) :
  Forall2 R l1 l2 -> In a l1 -> exists b, In b l2 /\ R a b.
Proof.
  induction 1 as [|a' b l1 l2 Hab _ IH]; simpl; [tauto|].
  intros [<-|H].
  - exists b. auto.
  - destruct (IH H) as (b' & Hb' & HR). exists b'. auto.
Qed.

Lemma last_two_inj (A : Type) (l1 l2 : list A) (x1 y1 x2 y2 : A) :
  (l1 ++ [x1; y1])%list = (l2 ++ [x2; y2])%list -> x1 = x2.
Proof.
  intros H.
  change (l1 ++ [x1; y1])%list with (l1 ++ [x1] ++ [y1])%list in H.
  change (l2 ++ [x2; y2])%list with (l2 ++ [x2] ++ [y2])%list in H.
  rewrite !app_assoc in H. apply app_inj_tail in H. destruct H as [H _].
  apply app_inj_tail in H. destruct H as [_ H]. exact H.
Qed.

(** The regions and the services of the triples are those of the returned
    parameters. *)
Lemma triples_of_returned (steps : list step) (ts : list triple) :
  Forall2 triple_of (returned_parameters steps) ts ->
  (forall r, (exists s e, In (r, s, e) ts)
             <-> exists parameter, In (r, parameter) (returned_parameters steps))
  /\ (forall r s, (exists e, In (r, s, e) ts)
                  <-> exists parameter before last,
                        In (r, parameter) (returned_parameters steps)
                        /\ Py.split "/" (Name parameter) = (before ++ [s; last])%list).
Proof.
  intros HF. split.
  - intros r. split.
    + intros (s & e & Ht).
      destruct (@Forall2_In_r _ _ _ _ _ _ HF Ht) as ([r' p] & Hp & Hrel).
      destruct Hrel as (before & service & last & _ & Heq). simpl in Heq.
      injection Heq as -> _ _. exists p. exact Hp.
    + intros (p & Hp).
      destruct (@Forall2_In_l _ _ _ _ _ _ HF Hp) as (t & Ht & Hrel).
      destruct Hrel as (before & service & last & _ & ->). simpl in Ht.
      exists service, (Value p). exact Ht.
  - intros r s. split.
    + intros (e & Ht).
      destruct (@Forall2_In_r _ _ _ _ _ _ HF Ht) as ([r' p] & Hp & Hrel).
      destruct Hrel as (before & service & last & Hsplit & Heq). simpl in Heq, Hsplit.
      injection Heq as -> -> _. exists p, before, last. split; assumption.
    + intros (p & before & last & Hp & Hsplit).
      destruct (@Forall2_In_l _ _ _ _ _ _ HF Hp) as (t & Ht & Hrel).
      destruct Hrel as (before' & service & last' & Hsplit' & ->). simpl in *.
      rewrite Hsplit in Hsplit'. apply last_two_inj in Hsplit'. subst service.
      exists (Value p). exact Ht.
Qed.

(** * The claims *)

Import Examples.



(** C3.  With a non-empty override string, the resolver of that axis
    returns the comma-split override, sorted: the same entries as many times
    as they were given, in ascending order, whatever they are.  It leaves
    the world as it found it, so it sends nothing to the parameter store. *)
Theorem override_resolution (ssm : SSM) (arguments : Namespace)
    (ssm_client region s : string) (w : World) :
  s <> EmptyString ->
  (region_overrides arguments = Some s ->
   get_regions ssm arguments ssm_client w = (Ok (Py.sorted (Py.split "," s)), w))
  /\ (service_overrides arguments = Some s ->
      get_region_services ssm arguments ssm_client region w
      = (Ok (Py.sorted (Py.split "," s)), w))
  /\ Permutation (Py.split "," s) (Py.sorted (Py.split "," s))
  /\ StronglySorted str_le (Py.sorted (Py.split "," s))
  /\ Py.join "," (Py.split "," s) = s
  /\ Forall (fun segment => occurs "," segment = false) (Py.split "," s).
Proof.
  intros Hs. repeat split.
  - intros Ho. apply get_regions_override; assumption.
  - intros Ho. apply get_region_services_override; assumption.
  - apply PyFacts.sorted_perm.
  - apply PyFacts.sorted_sorted.
  - apply PyFacts.join_split.
  - apply PyFacts.split_no_sep.
Qed.

Lemma override_resolution_witness :
  get_regions echo_store
    (mkNamespace (Some "us-west-2,us-east-1,us-west-2") (Some "s3,ec2")) "ssm" empty_world
  = (Ok ["us-east-1"; "us-west-2"; "us-west-2"], empty_world)
  /\ get_region_services echo_store
       (mkNamespace (Some "us-west-2,us-east-1,us-west-2") (Some "s3,ec2")) "ssm"
       "us-east-1" empty_world
     = (Ok ["ec2"; "s3"], empty_world).
Proof.
  split.
  - apply (@override_resolution echo_store
             (mkNamespace (Some "us-west-2,us-east-1,us-west-2") (Some "s3,ec2"))
             "ssm" "us-east-1" "us-west-2,us-east-1,us-west-2" empty_world);
      [discriminate|reflexivity].
  - apply (@override_resolution echo_store
             (mkNamespace (Some "us-west-2,us-east-1,us-west-2") (Some "s3,ec2"))
             "ssm" "us-east-1" "s3,ec2" empty_world); [discriminate|reflexivity].
Defined.

(** C5.  When the store answers every batch, whatever names it reports as
    invalid, endpoint fetching ends well and returns one triple per returned
    parameter, in the order of the responses: the region asked for, the
    second-to-last segment of the parameter's name split on '/', and the
    parameter's value. *)
Theorem endpoint_triples (ssm : SSM) (ssm_client region : string)
    (services : list string) (w : World) (responses : list BatchResponse) :
  replay ssm (calls w) (batches (map (parameter_name region) services))
    = map Ok responses ->
  Forall (fun parameter => occurs "/" (Name parameter) = true)
         (flat_map ResponseParameters responses) ->
  exists (ts : list triple) (w' : World),
    get_service_endpoints ssm ssm_client region services w = (Ok ts, w')
    /\ Forall2 (fun parameter t =>
                  exists before service last,
                    Py.split "/" (Name parameter) = (before ++ [service; last])%list
                    /\ t = (region, service, Value parameter))
               (flat_map ResponseParameters responses) ts.
Proof.
  intros Hr Hnames.
  destruct (endpoints_of_total region Hnames) as (ts & He).
  exists ts. eexists. split.
  - unfold get_service_endpoints.
    erewrite fetch_batches_ok; [reflexivity|exact Hr|exact He].
  - apply endpoints_of_Forall2 in He.
    eapply Forall2_impl; [|exact He].
    intros p t Hpt. apply endpoint_of_inv, Hpt.
Qed.

Lemma endpoint_triples_witness :
  exists (ts : list triple) (w' : World),
    get_service_endpoints echo_store "ssm" "us-east-1" ["ec2"; "s3"] empty_world
    = (Ok ts, w')
    /\ Forall2 (fun parameter t =>
                  exists before service last,
                    Py.split "/" (Name parameter) = (before ++ [service; last])%list
                    /\ t = ("us-east-1", service, Value parameter))
               (map echo (map (parameter_name "us-east-1") ["ec2"; "s3"])) ts.
Proof.
  apply (@endpoint_triples echo_store "ssm" "us-east-1" ["ec2"; "s3"] empty_world
           [mkBatchResponse (map echo (map (parameter_name "us-east-1") ["ec2"; "s3"])) []]).
  - reflexivity.
  - repeat constructor.
Defined.

(** C4 as stated fails on the listing of services: a service whose value is
    the sentinel stays in the list. *)
Lemma service_listing_keeps_global :
  truthy (service_overrides no_overrides) = false
  /\ fst (get_region_services global_service_store no_overrides "ssm" "us-east-1"
            empty_world)
     = Ok ["global"; "s3"]
  /\ In "global" ["global"; "s3"].
Proof.
  split; [reflexivity|]. split; [vm_compute; reflexivity|]. left. reflexivity.
Qed.

(** C4, amended.  When no override is given for the axis and every page of
    the listing arrives, the region resolver returns the listed values
    without the sentinel "global", in ascending order, and the service
    resolver returns all the listed values, the sentinel included if the
    store lists it, in ascending order; each walks through every page with
    one call per page. *)
Theorem listing_resolution (ssm : SSM) (arguments : Namespace)
    (ssm_client region : string) (w : World) (pages : list Page) :
  let values := map Value (List.concat pages) in
  (truthy (region_overrides arguments) = false ->
   get_parameters_by_path ssm (calls w) regions_path = map Ok pages ->
   exists (regions : list string) (w' : World),
     get_regions ssm arguments ssm_client w = (Ok regions, w')
     /\ calls w'
        = (calls w ++ repeat (GetParametersByPath regions_path) (List.length pages))%list
     /\ ~ In "global" regions
     /\ (forall v, In v regions <-> In v values /\ v <> "global")
     /\ StronglySorted str_le regions
     /\ Permutation (filter (fun v => negb (String.eqb v "global")) values) regions)
  /\ (truthy (service_overrides arguments) = false ->
      get_parameters_by_path ssm (calls w) (services_path region) = map Ok pages ->
      exists (services : list string) (w' : World),
        get_region_services ssm arguments ssm_client region w = (Ok services, w')
        /\ calls w'
           = (calls w
                ++ repeat (GetParametersByPath (services_path region))
                     (List.length pages))%list
        /\ StronglySorted str_le services
        /\ Permutation values services).
Proof.
  intros values. split; intros Ht Hp.
  - eexists. eexists. split; [apply get_regions_listing; eassumption|].
    fold values. simpl. split; [reflexivity|].
    assert (forall v, In v (Py.sorted (filter (fun v => negb (String.eqb v "global")) values))
                      <-> In v values /\ v <> "global") as Hin.
    { intros v. rewrite PyFacts.sorted_In, filter_In, negb_true_iff, String.eqb_neq.
      tauto. }
    split; [intros H; apply Hin in H; destruct H as [_ H]; apply H; reflexivity|].
    split; [exact Hin|].
    split; [apply PyFacts.sorted_sorted|apply PyFacts.sorted_perm].
  - eexists. eexists. split; [apply get_region_services_listing; eassumption|].
    fold values. simpl. split; [reflexivity|].
    split; [apply PyFacts.sorted_sorted|apply PyFacts.sorted_perm].
Qed.

Lemma listing_resolution_witness :
  (exists (regions : list string) (w' : World),
     get_regions echo_store no_overrides "ssm" empty_world = (Ok regions, w')
     /\ ~ In "global" regions /\ StronglySorted str_le regions)
  /\ (exists (services : list string) (w' : World),
        get_region_services global_service_store no_overrides "ssm" "us-east-1"
          empty_world = (Ok services, w')
        /\ Permutation ["s3"; "global"] services).
Proof.
  split.
  - destruct (@listing_resolution echo_store no_overrides "ssm" "us-east-1" empty_world
                [[mkSsmParameter (regions_path ++ "/us-east-1") "us-east-1";
                  mkSsmParameter (regions_path ++ "/global") "global"];
                 [mkSsmParameter (regions_path ++ "/eu-west-1") "eu-west-1"]])
      as [H _].
    destruct (H eq_refl eq_refl) as (regions & w' & Hg & _ & Hn & _ & Hs & _).
    exists regions, w'. auto.
  - destruct (@listing_resolution global_service_store no_overrides "ssm" "us-east-1"
                empty_world
                [[mkSsmParameter (services_path "us-east-1" ++ "/s3") "s3";
                  mkSsmParameter (services_path "us-east-1" ++ "/global") "global"]])
      as [_ H].
    destruct (H eq_refl eq_refl) as (services & w' & Hg & _ & _ & Hp).
    exists services, w'. auto.
Defined.

(** C10.  Whatever the options and the store, in the result map of a run
    that ends well a region has one dict and a service of a region has one
    endpoint; every entry is what the store returned for a parameter of that
    region, and no region is held with an empty dict. *)
Theorem one_entry_per_pair (ssm : SSM) (arguments : Namespace) (w w' : World)
    (text : string) :
  generate_output_json ssm arguments w = (Ok text, w') ->
  exists ts : list triple,
    text = Py.dumps (to_json (build_json_data ts)) 4
    /\ (forall r services1 services2,
          In (r, services1) (build_json_data ts) ->
          In (r, services2) (build_json_data ts) -> services1 = services2)
    /\ (forall r services s endpoint1 endpoint2,
          In (r, services) (build_json_data ts) ->
          In (s, endpoint1) services -> In (s, endpoint2) services ->
          endpoint1 = endpoint2)
    /\ (forall r services s endpoint,
          In (r, services) (build_json_data ts) -> In (s, endpoint) services ->
          In (r, s, endpoint) ts /\ returned ssm r (r, s, endpoint))
    /\ (forall r services, In (r, services) (build_json_data ts) -> services <> []).
Proof.
  intros H. apply generate_output_json_collected in H.
  destruct H as (regions & ts & w1 & _ & _ & Ht & _ & Hall).
  exists ts. split; [exact Ht|]. repeat split.
  - intros r s1 s2 H1 H2.
    eapply keys_unique; [apply build_json_data_NoDup|exact H1|exact H2].
  - intros r services s e1 e2 Hr H1 H2.
    apply build_json_data_In in Hr. destruct Hr as [-> _].
    eapply keys_unique; [apply region_dict_NoDup|exact H1|exact H2].
  - apply build_json_data_In in H. destruct H as [-> _].
    apply region_dict_In, H0.
  - apply build_json_data_In in H. destruct H as [-> _].
    apply region_dict_In in H0. rewrite Forall_forall in Hall.
    apply (Hall _ H0).
  - intros r services Hr. apply build_json_data_In in Hr. destruct Hr as [-> Hin].
    apply region_dict_not_nil, Hin.
Qed.

Lemma one_entry_per_pair_witness :
  exists ts : list triple,
    Py.dumps (to_json duplicated_data) 4
    = Py.dumps (to_json (build_json_data ts)) 4
    /\ (forall r services s endpoint1 endpoint2,
          In (r, services) (build_json_data ts) ->
          In (s, endpoint1) services -> In (s, endpoint2) services ->
          endpoint1 = endpoint2).
Proof.
  destruct (@one_entry_per_pair echo_store duplicated_overrides empty_world
              (snd (generate_output_json echo_store duplicated_overrides empty_world))
              (Py.dumps (to_json duplicated_data) 4))
    as (ts & Ht & _ & Hu & _).
  - vm_compute. reflexivity.
  - exists ts. split; [exact Ht|exact Hu].
Defined.

(** C1 as stated fails on the order of the services: the keys of a region
    come in the order of the responses, here "s3" before "ec2". *)
Lemma service_keys_follow_responses :
  run reversing_store one_region_two_services empty_world
  = (Exited 0,
     snd (run reversing_store one_region_two_services empty_world))
  /\ stdout (snd (run reversing_store one_region_two_services empty_world))
     = [Py.dumps (to_json reversed_data) 4 ++ Py.nl]
  /\ map (fun rs => Py.keys (snd rs)) reversed_data = [["s3"; "ec2"]]
  /\ ~ StronglySorted str_le ["s3"; "ec2"].
Proof.
  split; [vm_compute; reflexivity|].
  split; [vm_compute; reflexivity|].
  split; [reflexivity|].
  intros H. inversion H as [|? ? _ Hle]; subst.
  inversion Hle as [|? ? Hlt _]; subst. vm_compute in Hlt. discriminate Hlt.
Qed.

(** C1, amended.  When [main] comes to its end, the last thing on standard
    output is the result map in the two-level layout with four spaces of
    indentation.  The loop went through the resolved regions step by step,
    and the triples the map is built from are, one for one and in the same
    order, the parameters the store returned.  So the top-level keys are
    exactly the resolved regions for which the store returned a parameter,
    in strictly ascending order, and the keys of a region are exactly the
    second-to-last segments of the names of the parameters returned for it,
    in the order in which the responses first returned them; no region has
    an empty object. *)
Theorem json_output_structure (ssm : SSM) (arguments : Namespace) (w w' : World) :
  main ssm arguments w = (Ok tt, w') ->
  exists (regions : list string) (ts : list triple) (steps : list step)
         (w0 w1 w2 : World),
    get_regions ssm arguments "ssm" w0 = (Ok regions, w1)
    /\ collect_endpoints ssm arguments "ssm" regions [] w1 = (Ok ts, w2)
    /\ Forall (fun t => returned ssm (region_of t) t) ts
    /\ stdout w'
       = ((stdout w ++ if unfiltered arguments then banner else [])
            ++ [(Py.dumps (to_json (build_json_data ts)) 4 ++ Py.nl)%string])%list
    /\ Py.dumps (to_json (build_json_data ts)) 4 = two_level_layout (build_json_data ts)
    /\ Py.keys (build_json_data ts) = insertion_order (map region_of ts)
    /\ StronglySorted str_lt (Py.keys (build_json_data ts))
    /\ (forall r, In r (Py.keys (build_json_data ts))
                  <-> In r regions /\ exists s e, In (r, s, e) ts)
    /\ (forall r services,
          In (r, services) (build_json_data ts) ->
          services <> []
          /\ Py.keys services = insertion_order (map service_of (triples_of_region r ts))
          /\ forall s, In s (Py.keys services) <-> exists e, In (r, s, e) ts)
    /\ map step_region steps = regions
    /\ region_steps ssm arguments w1 steps w2
    /\ Forall2 triple_of (returned_parameters steps) ts
    /\ (forall r, In r (Py.keys (build_json_data ts))
                  <-> exists parameter, In (r, parameter) (returned_parameters steps))
    /\ (forall r services s,
          In (r, services) (build_json_data ts) ->
          (In s (Py.keys services)
           <-> exists parameter before last,
                 In (r, parameter) (returned_parameters steps)
                 /\ Py.split "/" (Name parameter) = (before ++ [s; last])%list)).
Proof.
  intros H. apply main_stdout in H.
  destruct H as (text & w0 & w2 & Hg & Ho).
  apply generate_output_json_collected in Hg.
  destruct Hg as (regions & ts & w1 & Hr & Hc & -> & Hs & Hall).
  destruct (collect_endpoints_steps _ _ _ _ _ Hc) as (steps & ts' & Hmap & Hsteps & Hts & HF).
  simpl in Hts. subst ts'.
  destruct (@triples_of_returned steps ts HF) as [Hregions Hservices].
  exists regions, ts, steps, w0, w1, w2.
  split; [exact Hr|]. split; [exact Hc|].
  split; [eapply Forall_impl; [|exact Hall]; intros t [_ Ht]; exact Ht|].
  split; [exact Ho|].
  split; [apply dumps_two_level|].
  split; [apply build_json_data_keys|].
  split; [rewrite build_json_data_keys; apply insertion_order_sorted, Hs|].
  split.
  { intros r. rewrite build_json_data_keys, insertion_order_In, In_regions_of.
    split; [|tauto]. intros (s & e & Ht). split; [|exists s, e; exact Ht].
    rewrite Forall_forall in Hall. apply (Hall _ Ht). }
  split.
  { intros r services Hin. apply build_json_data_In in Hin.
    destruct Hin as [-> Hin].
    split; [apply region_dict_not_nil, Hin|].
    split; [apply region_dict_keys|].
    intros s. rewrite region_dict_keys, insertion_order_In.
    apply In_triples_of_region. }
  split; [exact Hmap|]. split; [exact Hsteps|]. split; [exact HF|].
  split.
  { intros r. rewrite build_json_data_keys, insertion_order_In, In_regions_of.
    apply Hregions. }
  intros r services s Hin. apply build_json_data_In in Hin. destruct Hin as [-> _].
  rewrite region_dict_keys, insertion_order_In, In_triples_of_region.
  apply Hservices.
Qed.

Lemma json_output_structure_witness :
  exists (regions : list string) (ts : list triple) (steps : list step)
         (w1 w2 : World),
    stdout (snd (main echo_store one_region_two_services empty_world))
    = [Py.dumps (to_json (build_json_data ts)) 4 ++ Py.nl]
    /\ StronglySorted str_lt (Py.keys (build_json_data ts))
    /\ (forall r, In r (Py.keys (build_json_data ts))
                  <-> In r regions /\ exists s e, In (r, s, e) ts)
    /\ map step_region steps = regions
    /\ region_steps echo_store one_region_two_services w1 steps w2
    /\ Forall2 triple_of (returned_parameters steps) ts
    /\ (forall r, In r (Py.keys (build_json_data ts))
                  <-> exists parameter, In (r, parameter) (returned_parameters steps)).
Proof.
  destruct (@json_output_structure echo_store one_region_two_services empty_world
              (snd (main echo_store one_region_two_services empty_world)))
    as (regions & ts & steps & w0 & w1 & w2
        & _ & _ & _ & Ho & _ & _ & Hs & Hk & _ & Hm & Hsteps & HF & Hr & _).
  - vm_compute. reflexivity.
  - exists regions, ts, steps, w1, w2.
    split; [exact Ho|]. split; [exact Hs|]. split; [exact Hk|].
    split; [exact Hm|]. split; [exact Hsteps|]. split; [exact HF|exact Hr].
Defined.

(** ** The process: exits, the gate and empty overrides *)

(** C6.  When [main] fails, nothing of the document reaches standard output:
    it holds what it held, and the two lines of the gate if the gate ran.
    A credentials error and a client error end the process with code 1 after
    one more line on standard error, the error's own message; an interrupt
    does the same with a fixed message; declining the gate has written its
    fixed message and exits with code 1 before any call to the store.  Every
    other exception is left to the interpreter, and the script writes
    nothing more. *)
Theorem error_exits (ssm : SSM) (arguments : Namespace) (w w' : World) (e : exn) :
  main ssm arguments w = (Raise e, w') ->
  let handler_wrote (message : string) :=
    mkWorld (stdin w') (stdout w') (stderr w' ++ [message ++ Py.nl]) (calls w') in
  stdout (snd (run ssm arguments w))
  = (stdout w ++ if unfiltered arguments then banner else [])%list
  /\ (forall json_data,
        ~ In (Py.dumps (to_json json_data) 4 ++ Py.nl)
             (if unfiltered arguments then banner else []))
  /\ match e with
     | NoCredentialsError message | ClientError message =>
         run ssm arguments w = (Exited 1, handler_wrote message)
     | KeyboardInterrupt =>
         run ssm arguments w = (Exited 1, handler_wrote "User interrupted program")
     | SystemExit code => run ssm arguments w = (Exited code, w')
     | EOFError | IndexError | OtherError _ => run ssm arguments w = (Traceback e, w')
     end
  /\ (unfiltered arguments = true ->
      forall answer rest,
        stdin w = Line answer :: rest ->
        String.eqb (Py.lower answer) "y" = false ->
        e = SystemExit 1
        /\ w' = mkWorld rest (stdout w ++ banner)
                  (stderr w ++ [prompt; "User aborted program" ++ Py.nl]) (calls w)).
Proof.
  intros H handler_wrote.
  split.
  { destruct (run_stdin_stdout ssm arguments w) as [_ ->]. rewrite H. simpl.
    apply main_stdout in H. exact H. }
  split.
  { intros json_data. destruct (unfiltered arguments); [apply banner_not_json|].
    intros []. }
  split.
  { rewrite run_spec, H. destruct e; reflexivity. }
  intros U answer rest Hin Hno.
  rewrite (main_unfiltered _ _ _ U) in H. unfold bind in H.
  rewrite (confirm_answer _ Hin), Hno in H.
  injection H as <- <-. split; reflexivity.
Qed.

Lemma error_exits_witness :
  run throttling_store one_region_two_services empty_world
  = (Exited 1,
     mkWorld [] []
       ["Retrieving endpoint(s) for ec2, s3 in us-east-1..."; "Rate exceeded" ++ Py.nl]
       [GetParameters (map (parameter_name "us-east-1") ["ec2"; "s3"])]).
Proof.
  apply (@error_exits throttling_store one_region_two_services empty_world
           (snd (main throttling_store one_region_two_services empty_world))
           (ClientError "Rate exceeded")).
  vm_compute. reflexivity.
Defined.

(** C7 as stated fails when an override is supplied as the empty string:
    the gate still asks. *)
Lemma empty_override_still_prompts :
  region_overrides empty_regions_override = Some EmptyString
  /\ run echo_store empty_regions_override (answering "n")
     = (Exited 1,
        mkWorld [] banner [prompt; "User aborted program" ++ Py.nl] []).
Proof.
  split; [reflexivity|]. vm_compute. reflexivity.
Qed.

(** C7, amended.  The gate runs if and only if neither override is a
    non-empty string.  When it does not run, [main] is the pipeline: nothing
    is read from standard input.  When it runs and the user answers, the
    answers "y" and "Y" let the pipeline start after the two lines and the
    question; any other answer ends the process with code 1 after the fixed
    message, with no call to the store and nothing of the document on
    standard output. *)
Theorem confirmation_gate (ssm : SSM) (arguments : Namespace) (w : World) :
  (unfiltered arguments = true
   <-> (region_overrides arguments = None \/ region_overrides arguments = Some EmptyString)
       /\ (service_overrides arguments = None
           \/ service_overrides arguments = Some EmptyString))
  /\ (unfiltered arguments = false ->
      main ssm arguments w = pipeline ssm arguments w
      /\ stdin (snd (run ssm arguments w)) = stdin w)
  /\ (unfiltered arguments = true ->
      forall answer rest,
        stdin w = Line answer :: rest ->
        (answer = "y" \/ answer = "Y" ->
         main ssm arguments w
         = pipeline ssm arguments
             (mkWorld rest (stdout w ++ banner) (stderr w ++ [prompt]) (calls w)))
        /\ (answer <> "y" -> answer <> "Y" ->
            run ssm arguments w
            = (Exited 1,
               mkWorld rest (stdout w ++ banner)
                 (stderr w ++ [prompt; "User aborted program" ++ Py.nl]) (calls w))
            /\ forall json_data,
                 ~ In (Py.dumps (to_json json_data) 4 ++ Py.nl) banner)).
Proof.
  split.
  { unfold unfiltered. rewrite andb_true_iff, !negb_true_iff, !truthy_false. tauto. }
  split.
  { intros U. split; [apply main_filtered, U|].
    destruct (run_stdin_stdout ssm arguments w) as [-> _].
    rewrite (main_filtered _ _ _ U).
    destruct (pipeline ssm arguments w) as [r w'] eqn:E. simpl.
    eapply pipeline_stdin, E. }
  intros U answer rest Hin. split.
  - intros Hy. apply lower_is_y in Hy.
    rewrite (main_unfiltered _ _ _ U). unfold bind.
    rewrite (confirm_answer _ Hin), Hy. reflexivity.
  - intros H1 H2. split; [|apply banner_not_json].
    assert (String.eqb (Py.lower answer) "y" = false) as Hno.
    { apply String.eqb_neq. intros Hy. apply lower_is_y in Hy. tauto. }
    rewrite run_spec, (main_unfiltered _ _ _ U). unfold bind.
    rewrite (confirm_answer _ Hin), Hno. reflexivity.
Qed.

Lemma confirmation_gate_witness :
  run echo_store no_overrides (answering "no")
  = (Exited 1,
     mkWorld [] banner [prompt; "User aborted program" ++ Py.nl] [])
  /\ stdin (snd (run echo_store one_region_two_services (answering "no")))
     = [Line "no"].
Proof.
  destruct (@confirmation_gate echo_store no_overrides (answering "no"))
    as (_ & _ & H).
  destruct (H eq_refl "no" [] eq_refl) as [_ H'].
  destruct H' as [H' _]; [discriminate|discriminate|].
  split; [exact H'|].
  destruct (@confirmation_gate echo_store one_region_two_services (answering "no"))
    as (_ & H2 & _).
  apply H2. reflexivity.
Defined.

(** C8: the code breaks the claim.  A confirmed run without overrides leaves
    on standard output the two lines of the gate before the document. *)
Theorem confirmation_text_on_stdout :
  run empty_store no_overrides (answering "y")
  = (Exited 0,
     mkWorld [] (banner ++ ["{}" ++ Py.nl])
       [prompt; "Retrieving all AWS regions... "; "found 0 regions." ++ Py.nl]
       [GetParametersByPath regions_path])
  /\ Py.dumps (to_json (build_json_data [])) 4 = "{}".
Proof.
  split; vm_compute; reflexivity.
Qed.

(** With an override, standard output receives the document and nothing
    else. *)
Lemma filtered_stdout (ssm : SSM) (arguments : Namespace) (w w' : World) :
  unfiltered arguments = false ->
  main ssm arguments w = (Ok tt, w') ->
  exists ts : list triple,
    stdout w' = (stdout w ++ [(Py.dumps (to_json (build_json_data ts)) 4 ++ Py.nl)%string])%list.
Proof.
  intros U H. apply json_structure_stdout in H.
  destruct H as (ts & H). rewrite U, app_nil_r in H. exists ts. exact H.
Qed.

(** C9 as stated fails: an empty override is not split into one empty
    segment; the regions are listed from the store. *)
Lemma empty_override_is_not_split :
  Py.sorted (Py.split "," EmptyString) = [EmptyString]
  /\ get_regions echo_store empty_regions_override "ssm" empty_world
     = (Ok ["eu-west-1"; "us-east-1"],
        mkWorld [] []
          ["Retrieving all AWS regions... "; "found 2 regions." ++ Py.nl]
          [GetParametersByPath regions_path; GetParametersByPath regions_path]).
Proof.
  split; vm_compute; reflexivity.
Qed.

(** C9, amended.  An override given as the empty string is an override not
    given: the resolvers, the gate and the whole process do what they do
    without it. *)
Theorem empty_override_is_absent (ssm : SSM) (other : option string)
    (ssm_client region : string) (w : World) :
  get_regions ssm (mkNamespace (Some EmptyString) other) ssm_client w
  = get_regions ssm (mkNamespace None other) ssm_client w
  /\ get_region_services ssm (mkNamespace other (Some EmptyString)) ssm_client region w
     = get_region_services ssm (mkNamespace other None) ssm_client region w
  /\ unfiltered (mkNamespace (Some EmptyString) other) = unfiltered (mkNamespace None other)
  /\ unfiltered (mkNamespace other (Some EmptyString)) = unfiltered (mkNamespace other None)
  /\ run ssm (mkNamespace (Some EmptyString) other) w = run ssm (mkNamespace None other) w
  /\ run ssm (mkNamespace other (Some EmptyString)) w = run ssm (mkNamespace other None) w.
Proof.
  assert (forall a a', normalize a = normalize a' -> run ssm a w = run ssm a' w) as Hrun.
  { intros a a' Hn. rewrite !run_spec.
    rewrite <- (main_normalize ssm a), <- (main_normalize ssm a'), Hn. reflexivity. }
  split.
  { rewrite <- (get_regions_normalize ssm (mkNamespace (Some EmptyString) other)).
    rewrite <- (get_regions_normalize ssm (mkNamespace None other)). reflexivity. }
  split.
  { rewrite <- (get_region_services_normalize ssm (mkNamespace other (Some EmptyString))).
    rewrite <- (get_region_services_normalize ssm (mkNamespace other None)).
    reflexivity. }
  split; [reflexivity|]. split; [reflexivity|].
  split; apply Hrun; reflexivity.
Qed.

(** * Further properties of the code *)

(** ** Names of parameters and names of services *)

Lemma split_app_sep (sep : ascii) (x y : string) :
  Py.split sep (x ++ String sep y) = (Py.split sep x ++ Py.split sep y)%list.
Proof.
  induction x as [|c x IH]; simpl.
  - rewrite Ascii.eqb_refl. reflexivity.
  - destruct (Ascii.eqb c sep).
    + rewrite IH. reflexivity.
    + rewrite IH. pose proof (@PyFacts.split_not_nil sep x) as Hnil.
      destruct (Py.split sep x) as [|seg segs]; [congruence|reflexivity].
Qed.

Lemma split_no_occurs (sep : ascii) (s : string) :
  occurs sep s = false -> Py.split sep s = [s].
Proof.
  induction s as [|c s IH]; simpl; [reflexivity|].
  destruct (Ascii.eqb c sep); simpl; [discriminate|].
  intros H. rewrite (IH H). reflexivity.
Qed.

Lemma parameter_name_split (region service : string) :
  Py.split "/" (parameter_name region service)
  = (Py.split "/" ("/aws/service/global-infrastructure/regions/" ++ region ++ "/services")
       ++ Py.split "/" service ++ ["endpoint"])%list.
Proof.
  unfold parameter_name.
  change ("/services/" ++ service ++ "/endpoint")
    with ("/services" ++ String "/" (service ++ String "/" "endpoint")).
  rewrite <- (append_assoc region "/services").
  rewrite <- (append_assoc "/aws/service/global-infrastructure/regions/").
  rewrite (split_app_sep "/"
             ("/aws/service/global-infrastructure/regions/" ++ region ++ "/services")
             (service ++ String "/" "endpoint")).
  rewrite (split_app_sep "/" service "endpoint"). reflexivity.
Qed.

Lemma endpoint_of_parameter_name (region service value : string) :
  endpoint_of region (mkSsmParameter (parameter_name region service) value)
  = Some (region, List.last (Py.split "/" service) EmptyString, value).
Proof.
  unfold endpoint_of. cbn [Name Value]. rewrite parameter_name_split.
  destruct (exists_last (@PyFacts.split_not_nil "/" service)) as (init & l & ->).
  rewrite last_last, <- app_assoc, app_assoc.
  change ([l] ++ ["endpoint"])%list with [l; "endpoint"].
  rewrite index_from_end_last_two. reflexivity.
Qed.

Lemma service_round_trip_aux (region service value : string) :
  occurs "/" service = false ->
  endpoint_of region (mkSsmParameter (parameter_name region service) value)
  = Some (region, service, value).
Proof.
  intros H. rewrite endpoint_of_parameter_name, (split_no_occurs _ _ H). reflexivity.
Qed.

(** X1.  The path built for a service and the service read back from the
    path: whatever the region, the triple made of the parameter named by
    [parameter_name region service] carries the last '/'-segment of the
    service, which is the service itself when it has no '/'. *)
Theorem service_round_trip (region service value : string) :
  endpoint_of region (mkSsmParameter (parameter_name region service) value)
  = Some (region, List.last (Py.split "/" service) EmptyString, value)
  /\ (occurs "/" service = false ->
      endpoint_of region (mkSsmParameter (parameter_name region service) value)
      = Some (region, service, value)).
Proof.
  split; [apply endpoint_of_parameter_name|].
  intros H. rewrite endpoint_of_parameter_name, (split_no_occurs _ _ H). reflexivity.
Qed.

Lemma service_round_trip_witness :
  endpoint_of "us-east-1"
    (mkSsmParameter (parameter_name "us-east-1" "s3") "s3.us-east-1.amazonaws.com")
  = Some ("us-east-1", "s3", "s3.us-east-1.amazonaws.com").
Proof.
  apply (@service_round_trip "us-east-1" "s3" "s3.us-east-1.amazonaws.com").
  reflexivity.
Defined.






Lemma In_batches (names : list string) (batch : list string) (name : string) :
  In batch (batches names) -> In name batch -> In name names.
Proof.
  intros Hb Hn. rewrite <- (batches_concat names). apply in_concat.
  exists batch. split; assumption.
Qed.

(** X3.  With a store that answers with parameters of the names it was asked
    for, and services that have no '/', every triple endpoint fetching
    returns is for the region asked for and for one of the services asked
    for. *)
Theorem endpoints_are_for_requested_services (ssm : SSM) (ssm_client region : string)
    (services : list string) (w w' : World) (ts : list triple) :
  answers_requested ssm ->
  Forall (fun service => occurs "/" service = false) services ->
  get_service_endpoints ssm ssm_client region services w = (Ok ts, w') ->
  Forall (fun t => region_of t = region /\ In (service_of t) services) ts.
Proof.
  intros Hstore Hservices H. unfold get_service_endpoints in H.
  apply fetch_batches_inv in H. destruct H as (responses & ts' & Hr & He & ->).
  simpl. apply endpoints_of_Forall2 in He.
  apply Forall_forall. intros t Ht.
  destruct (@Forall2_In_r _ _ _ _ _ t He Ht) as (p & Hp & Hpt).
  split; [eapply endpoint_of_region, Hpt|].
  apply in_flat_map in Hp. destruct Hp as (response & Hresp & Hp).
  destruct (@replay_In _ _ _ _ _ Hr Hresp) as (h & names & Hn & Hg).
  apply Hstore in Hg. rewrite Forall_forall in Hg. specialize (Hg p Hp).
  fold (batches (map (parameter_name region) services)) in Hn.
  pose proof (In_batches _ _ _ Hn Hg) as Hname.
  apply in_map_iff in Hname. destruct Hname as (service & Hname & Hs).
  rewrite Forall_forall in Hservices.
  destruct p as [name value]. simpl in Hname. subst name.
  pose proof (@service_round_trip_aux region service value (Hservices _ Hs)) as Heq.
  rewrite Heq in Hpt. injection Hpt as <-. exact Hs.
Qed.

Lemma echo_store_answers_requested : answers_requested echo_store.
Proof.
  intros history names response [= <-]. simpl.
  apply Forall_forall. intros p Hp. apply in_map_iff in Hp.
  destruct Hp as (name & <- & Hname). exact Hname.
Qed.

Lemma endpoints_are_for_requested_services_witness :
  Forall (fun t => region_of t = "us-east-1" /\ In (service_of t) ["ec2"; "s3"])
         [("us-east-1", "ec2", "endpoint of " ++ parameter_name "us-east-1" "ec2");
          ("us-east-1", "s3", "endpoint of " ++ parameter_name "us-east-1" "s3")].
Proof.
  apply (@endpoints_are_for_requested_services echo_store "ssm" "us-east-1"
           ["ec2"; "s3"] empty_world
           (snd (get_service_endpoints echo_store "ssm" "us-east-1" ["ec2"; "s3"]
                   empty_world))).
  - exact echo_store_answers_requested.
  - repeat constructor.
  - vm_compute. reflexivity.
Defined.

(** ** Progress markers *)


Lemma fetch_batches_failure (ssm : SSM) (ssm_client region : string)
    (parameter_names : list string) (indices : list nat) :
  forall (acc : list triple) (w w' : World) (e : exn),
  fetch_batches ssm ssm_client region parameter_names indices acc w = (Raise e, w') ->
  exists (k : nat) (responses : list BatchResponse),
    1 <= k <= List.length indices
    /\ calls w'
       = (calls w ++ map GetParameters (firstn k (slices parameter_names indices)))%list
    /\ ((replay ssm (calls w) (firstn k (slices parameter_names indices))
         = (map Ok responses ++ [Raise e])%list
         /\ stderr w' = (stderr w ++ repeat "." (k - 1))%list)
        \/ (replay ssm (calls w) (firstn k (slices parameter_names indices))
            = map Ok responses
            /\ e = IndexError
            /\ endpoints_of region (flat_map ResponseParameters responses) = None
            /\ stderr w' = (stderr w ++ repeat "." k)%list)).
Proof.
  induction indices as [|i indices IH]; intros acc w w' e H.
  - discriminate H.
  - cbn [fetch_batches] in H. unfold bind at 1 in H.
    unfold get_parameters_call in H. cbn [log_call] in H.
    destruct (get_parameters ssm (calls w) (Py.slice parameter_names i (i + 10)))
      as [response|e'] eqn:E.
    + unfold bind at 1 in H. cbn [print] in H. unfold bind at 1 in H.
      rewrite append_endpoints_spec in H.
      destruct (endpoints_of region (ResponseParameters response)) as [t1|] eqn:E1.
      * apply IH in H. destruct H as (k & responses & Hk & Hc & Hcause).
        cbn [calls stderr] in Hc, Hcause.
        exists (S k), (response :: responses).
        split; [simpl; lia|].
        split; [rewrite Hc, <- app_assoc; reflexivity|].
        destruct Hcause as [[Hr He]|(Hr & -> & Hn & He)].
        -- left. split.
           ++ cbn [slices map firstn replay]. rewrite E. fold (slices parameter_names indices).
              rewrite Hr. reflexivity.
           ++ rewrite He, <- app_assoc.
              replace (S k - 1) with (S (k - 1)) by lia. reflexivity.
        -- right. split; [|split; [reflexivity|split]].
           ++ cbn [slices map firstn replay]. rewrite E. fold (slices parameter_names indices).
              rewrite Hr. reflexivity.
           ++ cbn [flat_map]. rewrite endpoints_of_app, E1, Hn. reflexivity.
           ++ rewrite He, <- app_assoc. reflexivity.
      * injection H as <- <-. exists 1, [response].
        split; [simpl; lia|]. split; [reflexivity|].
        right. split; [|split; [reflexivity|split]].
        -- cbn [slices map firstn replay]. rewrite E. reflexivity.
        -- cbn [flat_map]. rewrite app_nil_r. exact E1.
        -- reflexivity.
    + injection H as <- <-. exists 1, [].
      split; [simpl; lia|]. split; [reflexivity|].
      left. split.
      * cbn [slices map firstn replay]. rewrite E. reflexivity.
      * cbn. rewrite app_nil_r. reflexivity.
Qed.

(** X4.  Endpoint fetching leaves standard input and standard output alone.
    When it comes to its end it has written one marker per batch on standard
    error and nothing else, and its calls are the batches.  When it fails it
    has sent [k] calls, at least one, and there are two cases.  Either the
    last of these calls itself raised the exception, the calls before it
    were answered, and there is one marker per answered call, one fewer than
    the calls sent.  Or all [k] calls were answered, the exception is the
    [IndexError] of a returned name without a second-to-last segment, and
    there is one marker per call. *)
Theorem progress_markers (ssm : SSM) (ssm_client region : string)
    (services : list string) (w w' : World) (r : outcome (list triple)) :
  get_service_endpoints ssm ssm_client region services w = (r, w') ->
  let names := map (parameter_name region) services in
  let n := List.length services in
  stdin w' = stdin w
  /\ stdout w' = stdout w
  /\ (forall ts, r = Ok ts ->
        w' = mkWorld (stdin w) (stdout w)
               (stderr w ++ repeat "." (ceil_div n 10))
               (calls w ++ map GetParameters (batches names)))
  /\ (forall e, r = Raise e ->
        exists (k : nat) (responses : list BatchResponse),
          1 <= k <= ceil_div n 10
          /\ calls w' = (calls w ++ map GetParameters (firstn k (batches names)))%list
          /\ ((replay ssm (calls w) (firstn k (batches names))
               = (map Ok responses ++ [Raise e])%list
               /\ stderr w' = (stderr w ++ repeat "." (k - 1))%list)
              \/ (replay ssm (calls w) (firstn k (batches names)) = map Ok responses
                  /\ e = IndexError
                  /\ endpoints_of region (flat_map ResponseParameters responses) = None
                  /\ stderr w' = (stderr w ++ repeat "." k)%list))).
Proof.
  intros H names n.
  assert (List.length names = n) as Hlen by apply length_map.
  pose proof (@quiet_get_service_endpoints ssm ssm_client region services) as Hq.
  destruct (Hq _ _ _ H) as [Hout Hin].
  split; [exact Hin|]. split; [exact Hout|]. split.
  - intros ts ->. unfold get_service_endpoints in H. fold names in H.
    pose proof H as H'. apply fetch_batches_inv in H'.
    destruct H' as (responses & ts' & Hr & He & _).
    erewrite fetch_batches_ok in H; [|exact Hr|exact He].
    injection H as _ <-. rewrite range_length.
    replace (ceil_div n 10) with (ceil_div (List.length names) 10)
      by (rewrite Hlen; reflexivity).
    reflexivity.
  - intros e ->. unfold get_service_endpoints in H. fold names in H.
    apply fetch_batches_failure in H. rewrite range_length in H.
    replace (ceil_div n 10) with (ceil_div (List.length names) 10)
      by (rewrite Hlen; reflexivity).
    exact H.
Qed.

Lemma progress_markers_witness :
  snd (get_service_endpoints echo_store "ssm" "r" eleven_services empty_world)
  = mkWorld [] [] ["."; "."]
      (map GetParameters (batches (map (parameter_name "r") eleven_services))).
Proof.
  destruct (@progress_markers echo_store "ssm" "r" eleven_services empty_world
              (snd (get_service_endpoints echo_store "ssm" "r" eleven_services
                      empty_world))
              (Ok (map (fun s => ("r", s, "endpoint of " ++ parameter_name "r" s))
                       eleven_services)))
    as (_ & _ & H & _).
  - vm_compute. reflexivity.
  - exact (H _ eq_refl).
Defined.

(** ** Listings that fail, and the order of what is listed *)

Lemma iterate_fail (path : string) (good : list Page) (e : exn)
    (rest : list (outcome Page)) (w : World) :
  iterate path (map Ok good ++ Raise e :: rest) w
  = (Raise e,
     mkWorld (stdin w) (stdout w) (stderr w)
       (calls w ++ repeat (GetParametersByPath path) (S (List.length good)))).
Proof.
  revert w; induction good as [|page good IH]; intros w; simpl.
  - run_monad. reflexivity.
  - run_monad. rewrite IH. simpl. rewrite <- app_assoc. reflexivity.
Qed.

Lemma iterate_inv (path : string) (pages : list (outcome Page)) :
  forall (w w' : World) (l : list Page),
  iterate path pages w = (Ok l, w') -> pages = map Ok l.
Proof.
  induction pages as [|[page|e] pages IH]; intros w w' l H.
  - injection H as <- _. reflexivity.
  - cbn [iterate] in H. apply bind_Ok_inv in H. destruct H as (u & w1 & _ & H).
    apply bind_Ok_inv in H. destruct H as (l' & w2 & H & Hr).
    injection Hr as <- _. simpl. f_equal. eapply IH, H.
  - cbn [iterate] in H. apply bind_Ok_inv in H. destruct H as (u & w1 & _ & H).
    discriminate H.
Qed.

(** X5.  A listing stops at the first page that fails: the pages before it
    were asked for one by one, the failing request is the last one sent, the
    exception goes up to the caller, and the line with the count is never
    written.  This holds for the regions and for the services of a region. *)
Theorem listing_failure (ssm : SSM) (arguments : Namespace)
    (ssm_client region : string) (w : World) (good : list Page) (e : exn)
    (rest : list (outcome Page)) :
  (truthy (region_overrides arguments) = false ->
   get_parameters_by_path ssm (calls w) regions_path = (map Ok good ++ Raise e :: rest)%list ->
   get_regions ssm arguments ssm_client w
   = (Raise e,
      mkWorld (stdin w) (stdout w)
        (stderr w ++ ["Retrieving all AWS regions... "])
        (calls w ++ repeat (GetParametersByPath regions_path) (S (List.length good)))))
  /\ (truthy (service_overrides arguments) = false ->
      get_parameters_by_path ssm (calls w) (services_path region)
      = (map Ok good ++ Raise e :: rest)%list ->
      get_region_services ssm arguments ssm_client region w
      = (Raise e,
         mkWorld (stdin w) (stdout w)
           (stderr w ++ ["Retrieving all services in " ++ region ++ "... "])
           (calls w
              ++ repeat (GetParametersByPath (services_path region))
                   (S (List.length good))))).
Proof.
  split; intros Ht Hp.
  - unfold get_regions. rewrite Ht.
    unfold bind at 1. unfold bind at 1. unfold print at 1. unfold bind at 1.
    unfold paginate. cbn [calls]. rewrite Hp, iterate_fail. reflexivity.
  - unfold get_region_services. rewrite Ht.
    unfold bind at 1. unfold bind at 1. unfold print at 1. unfold bind at 1.
    unfold paginate. cbn [calls]. rewrite Hp, iterate_fail.
    cbn. rewrite append_nil_r. reflexivity.
Qed.

Lemma listing_failure_witness :
  get_regions flaky_listing_store no_overrides "ssm" empty_world
  = (Raise (ClientError "Rate exceeded"),
     mkWorld [] [] ["Retrieving all AWS regions... "]
       [GetParametersByPath regions_path; GetParametersByPath regions_path]).
Proof.
  apply (@listing_failure flaky_listing_store no_overrides "ssm" "us-east-1"
           empty_world [[mkSsmParameter (regions_path ++ "/a") "a"]]
           (ClientError "Rate exceeded")
           [Ok [mkSsmParameter (regions_path ++ "/b") "b"]]); reflexivity.
Defined.

Lemma Permutation_filter (A : Type) (f : A -> bool) (l l' : list A) :
  Permutation l l' -> Permutation (filter f l) (filter f l').
Proof.
  induction 1 as [|x l l' _ IH|x y l|l l' l'' _ IH1 _ IH2]; simpl.
  - constructor.
  - destruct (f x); [constructor|]; exact IH.
  - destruct (f x), (f y); try apply Permutation_refl. apply perm_swap.
  - eapply perm_trans; eassumption.
Qed.

Lemma sorted_of_permutation (l l' : list string) :
  Permutation l l' -> Py.sorted l = Py.sorted l'.
Proof.
  intros H. apply PyFacts.sorted_unique; try apply PyFacts.sorted_sorted.
  eapply perm_trans; [apply Permutation_sym, PyFacts.sorted_perm|].
  eapply perm_trans; [exact H|apply PyFacts.sorted_perm].
Qed.

(** X6.  What a resolver returns does not depend on the order in which the
    store lists the values nor on how it cuts them into pages: two listings
    with the same values, each as many times, give the same list of regions
    and the same list of services. *)
Theorem listing_order_irrelevant (ssm1 ssm2 : SSM) (arguments : Namespace)
    (ssm_client region : string) (w1 w2 : World) (pages1 pages2 : list Page) :
  Permutation (map Value (List.concat pages1)) (map Value (List.concat pages2)) ->
  (truthy (region_overrides arguments) = false ->
   get_parameters_by_path ssm1 (calls w1) regions_path = map Ok pages1 ->
   get_parameters_by_path ssm2 (calls w2) regions_path = map Ok pages2 ->
   fst (get_regions ssm1 arguments ssm_client w1)
   = fst (get_regions ssm2 arguments ssm_client w2))
  /\ (truthy (service_overrides arguments) = false ->
      get_parameters_by_path ssm1 (calls w1) (services_path region) = map Ok pages1 ->
      get_parameters_by_path ssm2 (calls w2) (services_path region) = map Ok pages2 ->
      fst (get_region_services ssm1 arguments ssm_client region w1)
      = fst (get_region_services ssm2 arguments ssm_client region w2)).
Proof.
  intros Hperm. split; intros Ht H1 H2.
  - erewrite get_regions_listing by eassumption.
    erewrite (get_regions_listing ssm2) by eassumption.
    simpl. f_equal. apply sorted_of_permutation, Permutation_filter, Hperm.
  - erewrite get_region_services_listing by eassumption.
    erewrite (get_region_services_listing ssm2) by eassumption.
    simpl. f_equal. apply sorted_of_permutation, Hperm.
Qed.

Lemma listing_order_irrelevant_witness :
  fst (get_regions echo_store no_overrides "ssm" empty_world)
  = fst (get_regions reordered_store no_overrides "ssm" empty_world).
Proof.
  apply (@listing_order_irrelevant echo_store reordered_store no_overrides "ssm"
           "us-east-1" empty_world empty_world
           [[mkSsmParameter (regions_path ++ "/us-east-1") "us-east-1";
             mkSsmParameter (regions_path ++ "/global") "global"];
            [mkSsmParameter (regions_path ++ "/eu-west-1") "eu-west-1"]]
           [[mkSsmParameter (regions_path ++ "/eu-west-1") "eu-west-1";
             mkSsmParameter (regions_path ++ "/global") "global";
             mkSsmParameter (regions_path ++ "/us-east-1") "us-east-1"]]).
  - simpl. eapply perm_trans; [apply perm_swap|]. eapply perm_trans.
    + apply perm_skip, perm_swap.
    + apply perm_swap.
  - reflexivity.
  - reflexivity.
  - reflexivity.
Defined.

(** X7.  When a resolver lists from the store and returns, the last line it
    wrote on standard error carries the number of values it returns: for
    the regions the sentinel is not counted. *)
Theorem listing_count (ssm : SSM) (arguments : Namespace)
    (ssm_client region : string) (w w' : World) (l : list string) :
  (truthy (region_overrides arguments) = false ->
   get_regions ssm arguments ssm_client w = (Ok l, w') ->
   stderr w'
   = app (stderr w)
       ["Retrieving all AWS regions... ";
        ("found " ++ Py.str_of_nat (List.length l) ++ " regions.") ++ Py.nl])
  /\ (truthy (service_overrides arguments) = false ->
      get_region_services ssm arguments ssm_client region w = (Ok l, w') ->
      stderr w'
      = app (stderr w)
          ["Retrieving all services in " ++ region ++ "... ";
           ("found " ++ Py.str_of_nat (List.length l) ++ " services.") ++ Py.nl]).
Proof.
  split; intros Ht H.
  - assert (exists pages, get_parameters_by_path ssm (calls w) regions_path = map Ok pages)
      as (pages & Hp).
    { unfold get_regions in H. rewrite Ht in H.
      apply bind_Ok_inv in H. destruct H as (l0 & w1 & H & _).
      apply bind_Ok_inv in H. destruct H as (u & w2 & Hprint & H).
      apply bind_Ok_inv in H. destruct H as (pages & w3 & H & _).
      injection Hprint as _ <-. unfold paginate in H. cbn [calls] in H.
      exists pages. eapply iterate_inv, H. }
    erewrite get_regions_listing in H by eassumption. injection H as <- <-.
    simpl. rewrite PyFacts.sorted_length. reflexivity.
  - assert (exists pages,
               get_parameters_by_path ssm (calls w) (services_path region) = map Ok pages)
      as (pages & Hp).
    { unfold get_region_services in H. rewrite Ht in H.
      apply bind_Ok_inv in H. destruct H as (l0 & w1 & H & _).
      apply bind_Ok_inv in H. destruct H as (u & w2 & Hprint & H).
      apply bind_Ok_inv in H. destruct H as (pages & w3 & H & _).
      injection Hprint as _ <-. unfold paginate in H. cbn [calls] in H.
      exists pages. eapply iterate_inv, H. }
    erewrite get_region_services_listing in H by eassumption. injection H as <- <-.
    simpl. rewrite PyFacts.sorted_length. reflexivity.
Qed.

Lemma listing_count_witness :
  stderr (snd (get_regions echo_store no_overrides "ssm" empty_world))
  = ["Retrieving all AWS regions... "; "found 2 regions." ++ Py.nl].
Proof.
  apply (@listing_count echo_store no_overrides "ssm" "us-east-1" empty_world
           (snd (get_regions echo_store no_overrides "ssm" empty_world))
           ["eu-west-1"; "us-east-1"]).
  - reflexivity.
  - vm_compute. reflexivity.
Defined.

(** ** The result map: the last endpoint wins *)

Lemma fold_assign_get_other (l : list triple) (s : string) :
  forall d : list (string * string),
  Forall (fun t => service_of t <> s) l ->
  Py.dict_get s (fold_left assign l d) = Py.dict_get s d.
Proof.
  induction l as [|t l IH]; intros d H; simpl; [reflexivity|].
  inversion H as [|? ? Ht Hl]; subst.
  rewrite (IH _ Hl). unfold assign. apply dict_get_set_other. congruence.
Qed.

(** X8.  When the same region and service come with several endpoints, the
    result map holds the endpoint of the last triple: looking up the region
    and then the service gives the endpoint of a triple after which no
    triple has the same region and service. *)
Theorem last_endpoint_wins (ts1 ts2 : list triple) (r s e : string) :
  Forall (fun t => region_of t <> r \/ service_of t <> s) ts2 ->
  exists services,
    Py.dict_get r (build_json_data (ts1 ++ (r, s, e) :: ts2)) = Some services
    /\ Py.dict_get s services = Some e.
Proof.
  intros H. exists (region_dict r (ts1 ++ (r, s, e) :: ts2)). split.
  - rewrite build_json_data_get.
    assert (existsb (String.eqb r) (map region_of (ts1 ++ (r, s, e) :: ts2)) = true)
      as ->; [|reflexivity].
    apply existsb_eqb_In, in_map_iff. exists (r, s, e).
    split; [reflexivity|]. apply in_or_app. right. left. reflexivity.
  - unfold region_dict, triples_of_region. rewrite filter_app. simpl.
    unfold region_of at 2. simpl. rewrite String.eqb_refl.
    rewrite fold_left_app. simpl. rewrite fold_assign_get_other.
    + unfold assign. apply dict_get_set_same.
    + apply Forall_forall. intros t Ht. apply filter_In in Ht.
      destruct Ht as [Ht Hr]. apply String.eqb_eq in Hr.
      rewrite Forall_forall in H. destruct (H t Ht) as [Hne|Hne]; [contradiction|].
      exact Hne.
Qed.

Lemma last_endpoint_wins_witness :
  exists services,
    Py.dict_get "us-east-1"
      (build_json_data
         [("us-east-1", "s3", "first"); ("us-east-1", "s3", "second");
          ("us-east-1", "ec2", "other")])
    = Some services
    /\ Py.dict_get "s3" services = Some "second".
Proof.
  apply (@last_endpoint_wins [("us-east-1", "s3", "first")]
           [("us-east-1", "ec2", "other")] "us-east-1" "s3" "second").
  constructor; [right; discriminate|constructor].
Defined.

(** ** The gate without an answer, and standard input *)

(** X9.  When the gate runs and standard input is at its end, the
    [EOFError] of [input()] is caught by no handler: the process ends with a
    traceback after the two lines and the question, and no call to the
    store.  When the gate is interrupted instead, the process ends with code
    1 after the message of the interrupt handler, again with no call. *)
Theorem gate_without_answer (ssm : SSM) (arguments : Namespace) (w : World) :
  unfiltered arguments = true ->
  (stdin w = [] ->
   run ssm arguments w
   = (Traceback EOFError,
      mkWorld [] (stdout w ++ banner) (stderr w ++ [prompt]) (calls w)))
  /\ (forall rest,
        stdin w = Interrupt :: rest ->
        run ssm arguments w
        = (Exited 1,
           mkWorld rest (stdout w ++ banner)
             (stderr w ++ [prompt; "User interrupted program" ++ Py.nl]) (calls w))).
Proof.
  intros U. split.
  - intros Hin. rewrite run_spec, (main_unfiltered _ _ _ U). unfold bind.
    rewrite (confirm_eof _ Hin). reflexivity.
  - intros rest Hin. rewrite run_spec, (main_unfiltered _ _ _ U). unfold bind.
    rewrite (confirm_interrupt _ Hin). simpl. rewrite <- app_assoc. reflexivity.
Qed.

Lemma gate_without_answer_witness :
  run echo_store no_overrides empty_world
  = (Traceback EOFError, mkWorld [] banner [prompt] []).
Proof.
  apply (@gate_without_answer echo_store no_overrides empty_world); reflexivity.
Defined.

(** X10.  The process reads standard input at most once: when the gate runs
    it takes the first event of standard input, if there is one, and when
    the gate does not run standard input is left as it was. *)
Theorem stdin_read_once (ssm : SSM) (arguments : Namespace) (w : World) :
  stdin (snd (run ssm arguments w))
  = if unfiltered arguments then tl (stdin w) else stdin w.
Proof.
  destruct (run_stdin_stdout ssm arguments w) as [-> _].
  destruct (unfiltered arguments) eqn:U.
  - rewrite (main_unfiltered _ _ _ U). unfold bind.
    destruct (stdin w) as [|[answer|] rest] eqn:E.
    + rewrite (confirm_eof _ E). reflexivity.
    + rewrite (confirm_answer _ E).
      destruct (String.eqb (Py.lower answer) "y"); [|reflexivity].
      destruct (pipeline ssm arguments
                  (mkWorld rest (stdout w ++ banner) (stderr w ++ [prompt]) (calls w)))
        as [r w'] eqn:P.
      apply pipeline_stdin in P. exact P.
    + rewrite (confirm_interrupt _ E). reflexivity.
  - rewrite (main_filtered _ _ _ U).
    destruct (pipeline ssm arguments w) as [r w'] eqn:P.
    apply pipeline_stdin in P. exact P.
Qed.

(** ** A client that cannot be made *)

Lemma run_calls (ssm : SSM) (arguments : Namespace) (w : World) :
  calls (snd (run ssm arguments w)) = calls (snd (main ssm arguments w)).
Proof.
  rewrite run_spec. destruct (main ssm arguments w) as [[u|e] w']; simpl; [reflexivity|].
  destruct (handled e); reflexivity.
Qed.

Lemma generate_output_json_no_client (ssm : SSM) (arguments : Namespace) (w : World)
    (e : exn) :
  new_client ssm "ssm" = Some e ->
  generate_output_json ssm arguments w = (Raise e, w).
Proof.
  intros H. unfold generate_output_json, create_client, bind. rewrite H. reflexivity.
Qed.

(** X11.  When the client for "ssm" cannot be made, the exception stops the
    run before any listing: no call reaches the store, nothing of the
    document reaches standard output, and without the gate the world is left
    as it was apart from the message of a handler. *)
Theorem no_client_no_call (ssm : SSM) (arguments : Namespace) (w : World) (e : exn) :
  new_client ssm "ssm" = Some e ->
  calls (snd (run ssm arguments w)) = calls w
  /\ stdout (snd (run ssm arguments w))
     = (stdout w ++ if unfiltered arguments then banner else [])%list
  /\ (unfiltered arguments = false -> main ssm arguments w = (Raise e, w)).
Proof.
  intros H.
  assert (forall w0, pipeline ssm arguments w0 = (Raise e, w0)) as Hp.
  { intros w0. unfold pipeline, bind.
    rewrite (generate_output_json_no_client _ _ _ H). reflexivity. }
  assert (exists e' w', main ssm arguments w = (Raise e', w') /\ calls w' = calls w)
    as (e' & w' & Hm & Hc).
  { destruct (unfiltered arguments) eqn:U.
    - rewrite (main_unfiltered _ _ _ U). unfold bind.
      destruct (confirm_unfiltered_execution w) as [[u|e1] w1] eqn:C.
      + apply confirm_stdout in C. destruct C as [_ C].
        exists e, w1. split; [apply Hp|exact C].
      + apply confirm_stdout in C. destruct C as [_ C].
        exists e1, w1. split; [reflexivity|exact C].
    - rewrite (main_filtered _ _ _ U). exists e, w. split; [apply Hp|reflexivity]. }
  split; [rewrite run_calls, Hm; exact Hc|].
  split.
  - destruct (run_stdin_stdout ssm arguments w) as [_ ->]. rewrite Hm. simpl.
    apply main_stdout in Hm. exact Hm.
  - intros U. rewrite (main_filtered _ _ _ U). apply Hp.
Qed.

Lemma no_client_no_call_witness :
  run no_client_store one_region_two_services empty_world
  = (Traceback (OtherError "NoRegionError"), empty_world).
Proof.
  rewrite run_spec.
  destruct (@no_client_no_call no_client_store one_region_two_services empty_world
              (OtherError "NoRegionError") eq_refl) as (_ & _ & H).
  rewrite (H eq_refl). reflexivity.
Defined.

(** ** A run with both overrides *)


Lemma collect_endpoints_overridden (ssm : SSM) (arguments : Namespace)
    (ssm_client ss : string) (regions : list string) :
  ss <> EmptyString ->
  service_overrides arguments = Some ss ->
  forall (acc : list triple) (w w' : World) (ts : list triple),
  collect_endpoints ssm arguments ssm_client regions acc w = (Ok ts, w') ->
  w' = mkWorld (stdin w) (stdout w)
         (stderr w ++ flat_map (overridden_progress (Py.sorted (Py.split "," ss))) regions)
         (calls w ++ flat_map (region_calls (Py.sorted (Py.split "," ss))) regions).
Proof.
  intros Hne Hso. induction regions as [|region regions IH]; intros acc w w' ts H.
  - injection H as _ <-. simpl. rewrite !app_nil_r. destruct w; reflexivity.
  - cbn [collect_endpoints] in H. unfold bind at 1 in H.
    rewrite (get_region_services_override _ _ _ _ _ Hne Hso) in H.
    rewrite Hso, (truthy_Some Hne) in H. cbn [negb] in H.
    unfold bind at 1 in H. cbn [print] in H.
    apply bind_Ok_inv in H. destruct H as (endpoints & w3 & Hg & H).
    apply get_service_endpoints_world in Hg. subst w3.
    unfold bind at 1 in H. cbn [print] in H.
    apply IH in H. subst w'. cbn [stdin stdout stderr calls flat_map].
    unfold overridden_progress. rewrite append_nil_r.
    f_equal; repeat first [rewrite <- app_assoc | progress cbn [app]]; reflexivity.
Qed.

Lemma flat_map_length_const (A B : Type) (f : A -> list B) (n : nat) (l : list A) :
  (forall a, List.length (f a) = n) -> List.length (flat_map f l) = List.length l * n.
Proof.
  intros H. induction l as [|a l IH]; simpl; [reflexivity|].
  rewrite length_app, H, IH. reflexivity.
Qed.

(** X12.  With both overrides given as non-empty strings, a run that comes
    to its end has sent, region by region in sorted order, the batches of
    the sorted services and nothing else: [len(regions) * ceil(len(services)
    / 10)] calls, none of them a listing.  On standard error each region has
    its line with the services, one marker per batch and " done."; standard
    input is not read. *)
Theorem overridden_run (ssm : SSM) (arguments : Namespace) (sr ss : string)
    (w w' : World) :
  sr <> EmptyString -> ss <> EmptyString ->
  region_overrides arguments = Some sr ->
  service_overrides arguments = Some ss ->
  main ssm arguments w = (Ok tt, w') ->
  let regions := Py.sorted (Py.split "," sr) in
  let services := Py.sorted (Py.split "," ss) in
  calls w' = (calls w ++ flat_map (region_calls services) regions)%list
  /\ List.length (flat_map (region_calls services) regions)
     = List.length regions * ceil_div (List.length services) 10
  /\ Forall (fun c => exists names, c = GetParameters names)
            (flat_map (region_calls services) regions)
  /\ stderr w' = (stderr w ++ flat_map (overridden_progress services) regions)%list
  /\ stdin w' = stdin w.
Proof.
  intros Hsr Hss Hro Hso H regions services.
  assert (unfiltered arguments = false) as U.
  { unfold unfiltered. rewrite Hro, (truthy_Some Hsr). reflexivity. }
  rewrite (main_filtered _ _ _ U) in H. unfold pipeline in H.
  apply bind_Ok_inv in H. destruct H as (text & w1 & Hg & Hp).
  injection Hp as <-.
  apply generate_output_json_inv in Hg.
  destruct Hg as (regions' & ts & w0 & Hr & Hc & _).
  rewrite (get_regions_override _ _ _ _ Hsr Hro) in Hr. injection Hr as <- <-.
  eapply collect_endpoints_overridden in Hc; [|exact Hss|exact Hso]. subst w1.
  fold regions services. cbn [stdin stdout stderr calls].
  split; [reflexivity|]. split.
  - apply flat_map_length_const. intros region. unfold region_calls.
    rewrite length_map, batches_length, length_map. reflexivity.
  - split; [|split; reflexivity].
    apply Forall_forall. intros c Hc. apply in_flat_map in Hc.
    destruct Hc as (region & _ & Hc). unfold region_calls in Hc.
    apply in_map_iff in Hc. destruct Hc as (names & <- & _). exists names. reflexivity.
Qed.

Lemma overridden_run_witness :
  calls (snd (main echo_store one_region_two_services empty_world))
  = [GetParameters (map (parameter_name "us-east-1") ["ec2"; "s3"])]
  /\ stderr (snd (main echo_store one_region_two_services empty_world))
     = ["Retrieving endpoint(s) for ec2, s3 in us-east-1..."; "."; " done." ++ Py.nl].
Proof.
  destruct (@overridden_run echo_store one_region_two_services "us-east-1" "s3,ec2"
              empty_world (snd (main echo_store one_region_two_services empty_world)))
    as (Hc & _ & _ & He & _).
  - discriminate.
  - discriminate.
  - reflexivity.
  - reflexivity.
  - vm_compute. reflexivity.
  - split; [exact Hc|exact He].
Defined.
